(** * QHttpSocket: the per-connection HTTP adapter of qhttpengine

    A shallow embedding of [src/qhttpsocket.cpp].  The private object
    [QHttpSocketPrivate] becomes a record, every member function becomes
    a function on that record, and every effect that leaves the object
    (a Qt signal, a [qWarning], a call on the wrapped [QTcpSocket]) is
    appended to a chronological trace kept in the record.

    Strings.  A [QByteArray] is a [string] of bytes.  A [QString] is a
    [string] of code units, one character of [string] standing for
    the code unit of the same number, U+0000 to U+00FF; on these
    [trimmed] and [toLower] are Qt's, and [QString::operator<] is the
    lexicographic order on code units.  The implicit
    [QByteArray -> QString] conversion of
    [parseRequestHeaders(buffer.left(index))] is [Qt.toQString]: it
    stops at the first NUL and decodes UTF-8.  A [QString] with a code
    unit above U+00FF is outside what this type holds (see
    [Qt.beyond]); the statements that read parsed text off received
    bytes keep to bytes below 0x80. *)

From Stdlib Require Import Bool Arith ZArith Lia List Sorted.
From Stdlib Require Import Ascii String.
From Stdlib Require OrderedTypeEx.
Import ListNotations.

Local Open Scope string_scope.
Local Open Scope Z_scope.

(* ================================================================= *)
(** ** Qt string primitives *)

Module Qt.

Definition CR : ascii := "013"%char.
Definition LF : ascii := "010"%char.
Definition CRLF : string := String CR (String LF "").

(** [size()] as the signed integer Qt returns. *)
Definition size (s : string) : Z := Z.of_nat (String.length s).

Fixpoint take (n : nat) (s : string) : string :=
  match n, s with
  | S k, String c t => String c (take k t)
  | _, _ => ""
  end.

Fixpoint drop (n : nat) (s : string) : string :=
  match n, s with
  | S k, String _ t => drop k t
  | _, _ => s
  end.

(** [indexOf(pat)]: offset of the first occurrence, [-1] when absent. *)
Fixpoint indexOf_from (pat s : string) (i : Z) : Z :=
  if String.prefix pat s then i
  else match s with
       | "" => -1
       | String _ t => indexOf_from pat t (i + 1)
       end.

Definition indexOf (pat s : string) : Z := indexOf_from pat s 0.

(** [left(n)]: the whole string when [n] is negative or not smaller
    than the size. *)
Definition left (n : Z) (s : string) : string :=
  if (n <? 0) || (size s <=? n) then s else take (Z.to_nat n) s.

(** [mid(pos)] with the default length: everything from [pos] on, the
    null string when [pos] is past the end, from the start when [pos]
    is negative. *)
Definition mid (pos : Z) (s : string) : string :=
  if size s <? pos then "" else drop (Z.to_nat pos) s.

(** [QByteArray::remove(pos, len)]: nothing happens when [len <= 0] or
    [pos] is out of range; the tail is cut when [len] reaches past the
    end. *)
Definition remove (pos len : Z) (s : string) : string :=
  if (len <=? 0) || (pos <? 0) || (size s <=? pos) then s
  else take (Z.to_nat pos) s ++ drop (Z.to_nat (pos + len)) s.

(** [QChar::isSpace] on U+0000 to U+00FF: tab, line feed, vertical
    tab, form feed, carriage return, space, next line (U+0085) and
    no-break space (U+00A0). *)
Definition isSpace (c : ascii) : bool :=
  let n := nat_of_ascii c in
  ((9 <=? n) && (n <=? 13))%nat || (n =? 32)%nat
  || (n =? 133)%nat || (n =? 160)%nat.

Fixpoint ltrim (s : string) : string :=
  match s with
  | String c t => if isSpace c then ltrim t else s
  | "" => ""
  end.

Fixpoint rtrim (s : string) : string :=
  match s with
  | String c t =>
      match rtrim t with
      | "" => if isSpace c then "" else String c ""
      | r => String c r
      end
  | "" => ""
  end.

Definition trimmed (s : string) : string := rtrim (ltrim s).

(** The lower-case mapping of [QString::toLower] on U+0000 to U+00FF:
    A to Z, and U+00C0 to U+00DE but for the multiplication sign
    U+00D7, go 32 up; every other code unit stays. *)
Definition lowerChar (c : ascii) : ascii :=
  let n := nat_of_ascii c in
  if ((65 <=? n) && (n <=? 90))%nat
     || ((192 <=? n) && (n <=? 222) && negb (n =? 215))%nat
  then ascii_of_nat (n + 32) else c.

Fixpoint toLower (s : string) : string :=
  match s with
  | String c t => String (lowerChar c) (toLower t)
  | "" => ""
  end.

(** *** [QString(const QByteArray &)]

    The converting constructor copies up to the first NUL and decodes
    the bytes as UTF-8.  A byte below 0x80 is the code unit of the
    same number; the two-byte sequences led by 0xC2 and 0xC3 are the
    code units U+0080 to U+00FF.  Every other byte is part of a
    character above U+00FF (a byte order mark among them) or of an
    invalid sequence, where Qt's result is not a string of this type:
    [beyond] stands in the byte's place. *)
Definition beyond : ascii := "?"%char.

Fixpoint upToNul (s : string) : string :=
  match s with
  | String c t => if (nat_of_ascii c =? 0)%nat then "" else String c (upToNul t)
  | "" => ""
  end.

Fixpoint fromUtf8 (s : string) : string :=
  match s with
  | "" => ""
  | String c t =>
      let n := nat_of_ascii c in
      if (n <? 128)%nat then String c (fromUtf8 t)
      else
        match t with
        | String c2 t2 =>
            let n2 := nat_of_ascii c2 in
            if (((n =? 194) || (n =? 195)) && (128 <=? n2) && (n2 <? 192))%nat
            then String (ascii_of_nat ((n - 192) * 64 + (n2 - 128)))
                        (fromUtf8 t2)
            else String beyond (fromUtf8 t)
        | "" => String beyond ""
        end
  end.

Definition toQString (ba : string) : string := fromUtf8 (upToNul ba).

(** [split(sep)] for a non-empty separator, empty parts kept (the
    default [KeepEmptyParts]).  [skip] counts the separator characters
    still to be passed over; [acc] is the current part, reversed. *)
Fixpoint rev_string (acc : list ascii) (s : string) : string :=
  match acc with
  | [] => s
  | c :: r => rev_string r (String c s)
  end.

Fixpoint split_aux (sep : string) (skip : nat) (acc : list ascii)
         (s : string) : list string :=
  match s with
  | "" => [rev_string acc ""]
  | String c t =>
      match skip with
      | S k => split_aux sep k acc t
      | O =>
          if String.prefix sep s
          then rev_string acc "" :: split_aux sep (String.length sep - 1) [] t
          else split_aux sep 0 (c :: acc) t
      end
  end.

Definition split (sep s : string) : list string := split_aux sep 0 [] s.

(** *** [QString::arg]

    A template is cut into literal characters and place markers [%1]
    .. [%9].  [arg] with [k] arguments replaces, in one pass, the [k]
    lowest distinct marker numbers of the template by the arguments in
    order; the arguments themselves are not scanned again. *)
Inductive piece : Type :=
| Lit (c : ascii)
| Marker (n : nat).

Definition digitValue (c : ascii) : option nat :=
  let n := nat_of_ascii c in
  if ((49 <=? n) && (n <=? 57))%nat then Some (n - 48)%nat else None.

Fixpoint pieces (s : string) : list piece :=
  match s with
  | "" => []
  | String c t =>
      match t with
      | "" => [Lit c]
      | String d u =>
          match (if Ascii.eqb c "%" then digitValue d else None) with
          | Some n => Marker n :: pieces u
          | None => Lit c :: pieces t
          end
      end
  end.

Fixpoint insertMarker (n : nat) (l : list nat) : list nat :=
  match l with
  | [] => [n]
  | m :: r =>
      if (n <? m)%nat then n :: l
      else if (n =? m)%nat then l
      else m :: insertMarker n r
  end.

Fixpoint markers (ps : list piece) : list nat :=
  match ps with
  | [] => []
  | Lit _ :: r => markers r
  | Marker n :: r => insertMarker n (markers r)
  end.

Fixpoint position (n : nat) (l : list nat) : option nat :=
  match l with
  | [] => None
  | m :: r => if (n =? m)%nat then Some O
              else option_map S (position n r)
  end.

Fixpoint render (ms : list nat) (args : list string) (ps : list piece)
  : string :=
  match ps with
  | [] => ""
  | Lit c :: r => String c (render ms args r)
  | Marker n :: r =>
      match position n ms with
      | Some i =>
          match nth_error args i with
          | Some a => a ++ render ms args r
          | None =>
              String "%" (String (ascii_of_nat (n + 48)) (render ms args r))
          end
      | None =>
          String "%" (String (ascii_of_nat (n + 48)) (render ms args r))
      end
  end.

Definition arg (tmpl : string) (args : list string) : string :=
  let ps := pieces tmpl in render (markers ps) args ps.

End Qt.

(* ================================================================= *)
(** ** QMap<QString, QString>

    A [QMap] keeps one value per key and iterates in ascending key
    order.  It is modelled by the list of its entries in iteration
    order. *)

Module QMap.

Definition t : Type := list (string * string).

Definition empty : t := [].

(** [insert(key, value)]: a new entry goes to its place in key order;
    an existing key gets the new value. *)
Fixpoint insert (k v : string) (m : t) : t :=
  match m with
  | [] => [(k, v)]
  | (k', v') :: r =>
      match String.compare k k' with
      | Lt => (k, v) :: m
      | Eq => (k, v) :: r
      | Gt => (k', v') :: insert k v r
      end
  end.

Fixpoint find (k : string) (m : t) : option string :=
  match m with
  | [] => None
  | (k', v') :: r => if String.eqb k k' then Some v' else find k r
  end.

(** [value(key)]: the default-constructed (empty) string when the key
    is absent. *)
Definition value (k : string) (m : t) : string :=
  match find k m with
  | Some v => v
  | None => ""
  end.

Definition keys (m : t) : list string := map fst m.

End QMap.

(* ================================================================= *)
(** ** The connection object *)

(** [QHttpSocket::Error]; the enumerator [None] is spelled [NoError]
    here. *)
Inductive Error : Type :=
| NoError
| MalformedRequestLine
| MalformedRequestHeader
| InvalidHttpVersion
| IncompleteHeader.

(** What leaves the object, in the order it happens: signals raised to
    the owner, [qWarning] messages and calls on the wrapped socket.
    [HeadersBuilt] is a ghost event: it records the local string that
    [writeResponseHeaders] builds, so that statements can speak about
    it. *)
Inductive event : Type :=
| SigRequestHeadersParsed
| SigReadyRead
| SigErrorChanged (e : Error)
| Warning (msg : string)
| SocketWrite (data : string)
| SocketClose
| HeadersBuilt (headers : string).

Record QHttpSocketPrivate : Type := mkPrivate {
  error : Error;
  errorString : string;
  buffer : string;
  requestHeadersRead : bool;
  requestMethod : string;
  requestUri : string;
  requestHeaders : QMap.t;
  responseStatusCode : string;
  responseHeaders : QMap.t;
  responseHeadersWritten : bool;
  trace : list event
}.

Definition set_error (e : Error) (d : QHttpSocketPrivate) :=
  mkPrivate e (errorString d) (buffer d) (requestHeadersRead d)
    (requestMethod d) (requestUri d) (requestHeaders d)
    (responseStatusCode d) (responseHeaders d) (responseHeadersWritten d)
    (trace d).

Definition setErrorString (m : string) (d : QHttpSocketPrivate) :=
  mkPrivate (error d) m (buffer d) (requestHeadersRead d)
    (requestMethod d) (requestUri d) (requestHeaders d)
    (responseStatusCode d) (responseHeaders d) (responseHeadersWritten d)
    (trace d).

Definition set_buffer (b : string) (d : QHttpSocketPrivate) :=
  mkPrivate (error d) (errorString d) b (requestHeadersRead d)
    (requestMethod d) (requestUri d) (requestHeaders d)
    (responseStatusCode d) (responseHeaders d) (responseHeadersWritten d)
    (trace d).

Definition set_requestHeadersRead (f : bool) (d : QHttpSocketPrivate) :=
  mkPrivate (error d) (errorString d) (buffer d) f
    (requestMethod d) (requestUri d) (requestHeaders d)
    (responseStatusCode d) (responseHeaders d) (responseHeadersWritten d)
    (trace d).

Definition set_requestMethod (m : string) (d : QHttpSocketPrivate) :=
  mkPrivate (error d) (errorString d) (buffer d) (requestHeadersRead d)
    m (requestUri d) (requestHeaders d)
    (responseStatusCode d) (responseHeaders d) (responseHeadersWritten d)
    (trace d).

Definition set_requestUri (u : string) (d : QHttpSocketPrivate) :=
  mkPrivate (error d) (errorString d) (buffer d) (requestHeadersRead d)
    (requestMethod d) u (requestHeaders d)
    (responseStatusCode d) (responseHeaders d) (responseHeadersWritten d)
    (trace d).

Definition set_requestHeaders (h : QMap.t) (d : QHttpSocketPrivate) :=
  mkPrivate (error d) (errorString d) (buffer d) (requestHeadersRead d)
    (requestMethod d) (requestUri d) h
    (responseStatusCode d) (responseHeaders d) (responseHeadersWritten d)
    (trace d).

Definition set_responseStatusCode (c : string) (d : QHttpSocketPrivate) :=
  mkPrivate (error d) (errorString d) (buffer d) (requestHeadersRead d)
    (requestMethod d) (requestUri d) (requestHeaders d)
    c (responseHeaders d) (responseHeadersWritten d)
    (trace d).

Definition set_responseHeaders (h : QMap.t) (d : QHttpSocketPrivate) :=
  mkPrivate (error d) (errorString d) (buffer d) (requestHeadersRead d)
    (requestMethod d) (requestUri d) (requestHeaders d)
    (responseStatusCode d) h (responseHeadersWritten d)
    (trace d).

Definition set_responseHeadersWritten (f : bool) (d : QHttpSocketPrivate) :=
  mkPrivate (error d) (errorString d) (buffer d) (requestHeadersRead d)
    (requestMethod d) (requestUri d) (requestHeaders d)
    (responseStatusCode d) (responseHeaders d) f
    (trace d).

(** [Q_EMIT], [qWarning] and socket calls all append to the trace. *)
Definition emit (e : event) (d : QHttpSocketPrivate) :=
  mkPrivate (error d) (errorString d) (buffer d) (requestHeadersRead d)
    (requestMethod d) (requestUri d) (requestHeaders d)
    (responseStatusCode d) (responseHeaders d) (responseHeadersWritten d)
    (trace d ++ [e]).

(** The constructor's member initialisers; the members it does not
    name are default-constructed. *)
Definition initial : QHttpSocketPrivate :=
  mkPrivate NoError "" "" false "" "" QMap.empty "200 OK" QMap.empty false [].

(* ================================================================= *)
(** ** QHttpSocketPrivate *)

(** The loop body of [writeResponseHeaders]: one header appended to
    the string built so far. *)
Definition appendHeader (headers : string) (kv : string * string) : string :=
  headers ++ Qt.arg "%1: %2" [fst kv; snd kv].

(** The value of the local [headers] when the loop of
    [writeResponseHeaders] has run. *)
Definition builtHeaders (d : QHttpSocketPrivate) : string :=
  fold_left appendHeader (responseHeaders d)
    (Qt.arg ("HTTP/1.0 %1" ++ Qt.CRLF) [responseStatusCode d]).

(** [writeResponseHeaders]: builds the string, sets the flag, and
    returns.  No call on [socket] is made. *)
Definition writeResponseHeaders (d : QHttpSocketPrivate) : QHttpSocketPrivate :=
  let headers := builtHeaders d in
  set_responseHeadersWritten true (emit (HeadersBuilt headers) d).

Definition abortWithError (socketError : Error) (d : QHttpSocketPrivate)
  : QHttpSocketPrivate :=
  let d := set_error socketError d in
  let d :=
    match error d with
    | MalformedRequestLine => setErrorString "Malformed request line" d
    | MalformedRequestHeader => setErrorString "Malformed request header" d
    | InvalidHttpVersion => setErrorString "Invalid HTTP version" d
    | IncompleteHeader => setErrorString "Incomplete header received" d
    | NoError => d
    end in
  emit (SigErrorChanged (error d)) d.

Definition parseRequestLine (line : string) (d : QHttpSocketPrivate)
  : QHttpSocketPrivate :=
  let parts := Qt.split " " line in
  if negb (List.length parts =? 3)%nat then
    abortWithError MalformedRequestLine d
  else if negb (String.eqb (nth 2 parts "") "HTTP/1.0")
          && negb (String.eqb (nth 2 parts "") "HTTP/1.1") then
    abortWithError InvalidHttpVersion d
  else
    set_requestUri (nth 1 parts "") (set_requestMethod (nth 0 parts "") d).

Definition parseRequestHeader (header : string) (d : QHttpSocketPrivate)
  : QHttpSocketPrivate :=
  let index := Qt.indexOf ":" header in
  if index =? -1 then
    abortWithError MalformedRequestHeader d
  else
    set_requestHeaders
      (QMap.insert (Qt.toLower (Qt.trimmed (Qt.left index header)))
                   (Qt.trimmed (Qt.mid (index + 1) header))
                   (requestHeaders d))
      d.

(** [parts.takeFirst()] then [foreach]: [split] never returns an empty
    list, so the first branch is not reached. *)
Definition parseRequestHeaders (headers : string) (d : QHttpSocketPrivate)
  : QHttpSocketPrivate :=
  match Qt.split Qt.CRLF headers with
  | [] => d
  | line :: parts =>
      fold_left (fun d header => parseRequestHeader header d) parts
                (parseRequestLine line d)
  end.

(** [onReadyRead]; [chunk] is what [socket.readAll()] returns. *)
Definition onReadyRead (chunk : string) (d : QHttpSocketPrivate)
  : QHttpSocketPrivate :=
  let d := set_buffer (buffer d ++ chunk) d in
  if negb (requestHeadersRead d) then
    let index := Qt.indexOf (Qt.CRLF ++ Qt.CRLF) (buffer d) in
    if negb (index =? -1) then
      let d := parseRequestHeaders
                 (Qt.toQString (Qt.left index (buffer d))) d in
      let d := set_buffer (Qt.remove 0 (index + 4) (buffer d)) d in
      let d := set_requestHeadersRead true d in
      emit SigRequestHeadersParsed d
    else d
  else
    emit SigReadyRead d.

(* ================================================================= *)
(** ** QHttpSocket

    A public getter that has the name of the member it returns is
    spelled with [get] in front: [getError], [getRequestMethod],
    [getRequestUri], [getRequestHeaders]. *)

Definition warnUnread (d : QHttpSocketPrivate) : QHttpSocketPrivate :=
  if negb (requestHeadersRead d)
  then emit (Warning "Request headers have not yet been read") d
  else d.

Definition warnWritten (d : QHttpSocketPrivate) : QHttpSocketPrivate :=
  if responseHeadersWritten d
  then emit (Warning "Response headers have already been written") d
  else d.

Definition close (d : QHttpSocketPrivate) : QHttpSocketPrivate :=
  let d := if negb (responseHeadersWritten d)
           then writeResponseHeaders d else d in
  emit SocketClose d.

Definition getError (d : QHttpSocketPrivate) : Error := error d.

Definition getRequestMethod (d : QHttpSocketPrivate)
  : string * QHttpSocketPrivate :=
  let d := warnUnread d in (requestMethod d, d).

Definition getRequestUri (d : QHttpSocketPrivate)
  : string * QHttpSocketPrivate :=
  let d := warnUnread d in (requestUri d, d).

Definition getRequestHeaders (d : QHttpSocketPrivate)
  : list string * QHttpSocketPrivate :=
  let d := warnUnread d in (QMap.keys (requestHeaders d), d).

Definition requestHeader (header : string) (d : QHttpSocketPrivate)
  : string * QHttpSocketPrivate :=
  let d := warnUnread d in
  (QMap.value (Qt.toLower header) (requestHeaders d), d).

Definition setResponseStatusCode (statusCode : string)
           (d : QHttpSocketPrivate) : QHttpSocketPrivate :=
  let d := warnWritten d in
  set_responseStatusCode statusCode d.

Definition setResponseHeader (header value : string)
           (d : QHttpSocketPrivate) : QHttpSocketPrivate :=
  let d := warnWritten d in
  set_responseHeaders (QMap.insert header value (responseHeaders d)) d.

(** [readData]: the result is the returned count, the bytes copied to
    [data], and the object afterwards.  [QIODevice] calls it with
    [maxlen >= 0] only. *)
Definition readData (maxlen : Z) (d : QHttpSocketPrivate)
  : Z * string * QHttpSocketPrivate :=
  if negb (requestHeadersRead d) then (-1, "", d)
  else
    let size := Z.min (Qt.size (buffer d)) maxlen in
    let data := Qt.take (Z.to_nat size) (buffer d) in
    let d := set_buffer (Qt.remove 0 size (buffer d)) d in
    (size, data, d).

(** [writeData]; [accepted] is what [socket.write] returns. *)
Definition writeData (data : string) (accepted : Z) (d : QHttpSocketPrivate)
  : Z * QHttpSocketPrivate :=
  let d := if negb (responseHeadersWritten d)
           then writeResponseHeaders d else d in
  (accepted, emit (SocketWrite data) d).

(* ================================================================= *)
(** ** Sequences of calls *)

(** One call on the adapter from outside: the transport's data-arrival
    notification or a public member function, with the arguments and
    the transport's answer. *)
Inductive call : Type :=
| OnReadyRead (chunk : string)
| Close
| GetError
| GetRequestMethod
| GetRequestUri
| GetRequestHeaders
| GetRequestHeader (header : string)
| SetResponseStatusCode (statusCode : string)
| SetResponseHeader (header value : string)
| ReadData (maxlen : Z)
| WriteData (data : string) (accepted : Z).

Definition step (c : call) (d : QHttpSocketPrivate) : QHttpSocketPrivate :=
  match c with
  | OnReadyRead chunk => onReadyRead chunk d
  | Close => close d
  | GetError => d
  | GetRequestMethod => snd (getRequestMethod d)
  | GetRequestUri => snd (getRequestUri d)
  | GetRequestHeaders => snd (getRequestHeaders d)
  | GetRequestHeader h => snd (requestHeader h d)
  | SetResponseStatusCode s => setResponseStatusCode s d
  | SetResponseHeader h v => setResponseHeader h v d
  | ReadData n => snd (readData n d)
  | WriteData data accepted => snd (writeData data accepted d)
  end.

Definition run (cs : list call) (d : QHttpSocketPrivate) : QHttpSocketPrivate :=
  fold_left (fun d c => step c d) cs d.

(** Strings put end to end. *)
Definition flat (l : list string) : string := fold_right append "" l.

(** The chunks of a request delivered one data-arrival notification
    at a time. *)
Definition deliver (chunks : list string) (d : QHttpSocketPrivate)
  : QHttpSocketPrivate :=
  fold_left (fun d chunk => onReadyRead chunk d) chunks d.

(** The payloads handed to [socket.write], oldest first. *)
Fixpoint socketWrites (t : list event) : list string :=
  match t with
  | [] => []
  | SocketWrite data :: r => data :: socketWrites r
  | _ :: r => socketWrites r
  end.

(** The strings built by [writeResponseHeaders], oldest first. *)
Fixpoint headersBuilt (t : list event) : list string :=
  match t with
  | [] => []
  | HeadersBuilt h :: r => h :: headersBuilt r
  | _ :: r => headersBuilt r
  end.

(** The payloads of the [writeData] calls of a sequence. *)
Fixpoint payloads (cs : list call) : list string :=
  match cs with
  | [] => []
  | WriteData data _ :: r => data :: payloads r
  | _ :: r => payloads r
  end.

(** Everything of the object but its trace. *)
Definition same_object (a b : QHttpSocketPrivate) : Prop :=
  error a = error b /\ errorString a = errorString b /\
  buffer a = buffer b /\ requestHeadersRead a = requestHeadersRead b /\
  requestMethod a = requestMethod b /\ requestUri a = requestUri b /\
  requestHeaders a = requestHeaders b /\
  responseStatusCode a = responseStatusCode b /\
  responseHeaders a = responseHeaders b /\
  responseHeadersWritten a = responseHeadersWritten b.

(** Occurrences of a character. *)
Fixpoint count (c : ascii) (s : string) : nat :=
  match s with
  | "" => O
  | String a t => if Ascii.eqb a c then S (count c t) else count c t
  end.

Definition lacks (c : ascii) (s : string) : Prop := count c s = O.

(** The key under which [parseRequestHeader] files a line, if any. *)
Definition headerName (line : string) : option string :=
  let index := Qt.indexOf ":" line in
  if index =? -1 then None
  else Some (Qt.toLower (Qt.trimmed (Qt.left index line))).

(** The value last given to a key by a list of insertions. *)
Fixpoint lastInserted (k : string) (ins : list (string * string))
  : option string :=
  match ins with
  | [] => None
  | (k', v) :: r =>
      match lastInserted k r with
      | Some w => Some w
      | None => if String.eqb k k' then Some v else None
      end
  end.

Definition headerLine (kv : string * string) : string :=
  fst kv ++ ": " ++ snd kv.

(** Keys in strictly ascending order, neighbour by neighbour. *)
Definition ascending (m : QMap.t) : Prop :=
  Sorted (fun a b => String.compare (fst a) (fst b) = Lt) m.

(** The serialization as the specification words it: status line,
    then the headers in the order they were first inserted, a repeated
    name keeping its place and taking the new value. *)
Module Spec.

Fixpoint insertOrdered (k v : string) (m : list (string * string))
  : list (string * string) :=
  match m with
  | [] => [(k, v)]
  | (k', v') :: r =>
      if String.eqb k k' then (k, v) :: r
      else (k', v') :: insertOrdered k v r
  end.

Definition ordered (ins : list (string * string)) : list (string * string) :=
  fold_left (fun m kv => insertOrdered (fst kv) (snd kv) m) ins [].

Definition serialization (statusCode : string)
           (ins : list (string * string)) : string :=
  "HTTP/1.0 " ++ statusCode ++ Qt.CRLF
    ++ flat (map headerLine (ordered ins)).

End Spec.

(* ================================================================= *)
(** ** Vocabulary of the statements *)

(** The four bytes [onReadyRead] looks for. *)
Definition delimiter : string := Qt.CRLF ++ Qt.CRLF.

(** The versions [parseRequestLine] lets through. *)
Definition supportedVersion (v : string) : bool :=
  String.eqb v "HTTP/1.0" || String.eqb v "HTTP/1.1".

(** The response members after a run of [setResponseHeader] calls. *)
Definition setHeaders (ins : list (string * string)) (d : QHttpSocketPrivate)
  : QHttpSocketPrivate :=
  fold_left (fun d kv => setResponseHeader (fst kv) (snd kv) d) ins d.

(** The message of the setters' [qWarning]. *)
Definition alreadyWritten : event :=
  Warning "Response headers have already been written".

(** A function is [silent] when it hands nothing to [socket.write],
    builds no header string and leaves [responseHeadersWritten]
    alone. *)
Definition silent (f : QHttpSocketPrivate -> QHttpSocketPrivate) : Prop :=
  forall d,
    socketWrites (trace (f d)) = socketWrites (trace d) /\
    headersBuilt (trace (f d)) = headersBuilt (trace d) /\
    responseHeadersWritten (f d) = responseHeadersWritten d.

(** The count of header strings built follows
    [responseHeadersWritten]: none before, one after. *)
Definition builtOnce (d : QHttpSocketPrivate) : Prop :=
  List.length (headersBuilt (trace d))
  = if responseHeadersWritten d then 1%nat else 0%nat.

(** A function [keepsError] when it leaves [error] alone or leaves
    it set. *)
Definition keepsError (f : QHttpSocketPrivate -> QHttpSocketPrivate) : Prop :=
  forall d, error (f d) = error d \/ error (f d) <> NoError.

(** Header blocks with parse faults. *)
Definition badRequestLine : string := "GET /foo" ++ Qt.CRLF ++ Qt.CRLF.

Definition badHeaderLine : string :=
  "GET /foo HTTP/1.1" ++ Qt.CRLF ++ "X-Test no-colon" ++ Qt.CRLF ++ Qt.CRLF.

Definition twoFaults : string :=
  "GET /foo" ++ Qt.CRLF ++ "X-Test no-colon" ++ Qt.CRLF ++ Qt.CRLF.

(* ================================================================= *)
(** ** Vocabulary of the further statements *)

(** The message the [switch] of [abortWithError] stores for an error
    kind; a fresh object has the empty string. *)
Definition errorMessage (e : Error) : string :=
  match e with
  | NoError => ""
  | MalformedRequestLine => "Malformed request line"
  | MalformedRequestHeader => "Malformed request header"
  | InvalidHttpVersion => "Invalid HTTP version"
  | IncompleteHeader => "Incomplete header received"
  end.

(** A request as it comes over the wire: the request line, the header
    lines each behind a CR LF, the blank line. *)
Definition requestLine (m u v : string) : string := m ++ " " ++ u ++ " " ++ v.

Definition rawHeader (kv : string * string) : string :=
  fst kv ++ ":" ++ snd kv.

Definition headerBlock (line : string) (hs : list string) : string :=
  line ++ flat (map (fun h => Qt.CRLF ++ h) hs).

(** Bytes that are text the same way as bytes and as code units:
    none is NUL and none is 0x80 or above. *)
Fixpoint sevenBit (s : string) : bool :=
  match s with
  | "" => true
  | String c t =>
      ((0 <? nat_of_ascii c) && (nat_of_ascii c <? 128))%nat && sevenBit t
  end.

(** A request whose parts keep to their places: bytes below 0x80 and
    no NUL, no space in method or URI, a supported version, no colon
    in a header name, and no carriage return anywhere inside a
    line. *)
Definition wellFormed (m u v : string) (hdrs : list (string * string))
  : Prop :=
  sevenBit m = true /\ sevenBit u = true /\
  lacks " " m /\ lacks Qt.CR m /\ lacks " " u /\ lacks Qt.CR u /\
  supportedVersion v = true /\
  Forall (fun kv => sevenBit (fst kv) = true /\ sevenBit (snd kv) = true /\
                    lacks ":" (fst kv) /\ lacks Qt.CR (fst kv) /\
                    lacks Qt.CR (snd kv)) hdrs.

(** What [parseRequestHeader] does to the map for a line [k:v]. *)
Definition storeHeader (m : QMap.t) (kv : string * string) : QMap.t :=
  QMap.insert (Qt.toLower (Qt.trimmed (fst kv))) (Qt.trimmed (snd kv)) m.

(** A function [emitsOnly] events of a class when all it does to the
    trace is append events of that class. *)
Definition emitsOnly (allowed : event -> bool)
           (f : QHttpSocketPrivate -> QHttpSocketPrivate) : Prop :=
  forall d, exists t,
    trace (f d) = (trace d ++ t)%list /\ forallb allowed t = true.

Definition isErrorChanged (e : event) : bool :=
  match e with SigErrorChanged _ => true | _ => false end.

Definition isParsed (e : event) : bool :=
  match e with SigRequestHeadersParsed => true | _ => false end.

Definition isWarning (e : event) : bool :=
  match e with Warning _ => true | _ => false end.

Definition noEvent (e : event) : bool := false.

(** The events a call may cause. *)
Definition callEvents (c : call) (e : event) : bool :=
  match c, e with
  | OnReadyRead _, (SigRequestHeadersParsed | SigReadyRead | SigErrorChanged _)
    => true
  | Close, (HeadersBuilt _ | SocketClose) => true
  | (GetRequestMethod | GetRequestUri | GetRequestHeaders
     | GetRequestHeader _), Warning _ => true
  | (SetResponseStatusCode _ | SetResponseHeader _ _), Warning _ => true
  | WriteData data _, SocketWrite data' => String.eqb data data'
  | WriteData _ _, HeadersBuilt _ => true
  | _, _ => false
  end.

(** What a call other than a data arrival appends to the trace, to
    the event. *)
Definition raisedBy (c : call) (d : QHttpSocketPrivate) : list event :=
  let unread :=
    if requestHeadersRead d then []
    else [Warning "Request headers have not yet been read"] in
  let written :=
    if responseHeadersWritten d then [alreadyWritten] else [] in
  let headers :=
    if responseHeadersWritten d then [] else [HeadersBuilt (builtHeaders d)] in
  match c with
  | OnReadyRead _ => []
  | Close => headers ++ [SocketClose]
  | GetError => []
  | GetRequestMethod | GetRequestUri | GetRequestHeaders
  | GetRequestHeader _ => unread
  | SetResponseStatusCode _ | SetResponseHeader _ _ => written
  | ReadData _ => []
  | WriteData data _ => headers ++ [SocketWrite data]
  end.

(** The calls on the request side and those on the response side. *)
Definition requestSide (c : call) : bool :=
  match c with
  | OnReadyRead _ | GetError | GetRequestMethod | GetRequestUri
  | GetRequestHeaders | GetRequestHeader _ | ReadData _ => true
  | _ => false
  end.

(** The members of the request side, and those of the response side. *)
Definition requestMembers (d : QHttpSocketPrivate) :=
  (error d, errorString d, buffer d, requestHeadersRead d,
   requestMethod d, requestUri d, requestHeaders d).

Definition responseMembers (d : QHttpSocketPrivate) :=
  (responseStatusCode d, responseHeaders d, responseHeadersWritten d).

(** The calls that make sure the response headers are written. *)
Definition sendsResponse (c : call) : bool :=
  match c with
  | Close | WriteData _ _ => true
  | _ => false
  end.

Definition isArrival (c : call) : bool :=
  match c with OnReadyRead _ => true | _ => false end.

(** The header map is in key order with lower-case keys. *)
Definition tidy (m : QMap.t) : Prop :=
  ascending m /\ Forall (fun k => Qt.toLower k = k) (QMap.keys m).

(** A call on the wrapped socket. *)
Definition isSocketCall (e : event) : bool :=
  match e with SocketWrite _ | SocketClose => true | _ => false end.

(** The bytes the [readData] calls of a run hand out, end to end, and
    the bytes its data arrivals bring. *)
Fixpoint bodyRead (cs : list call) (d : QHttpSocketPrivate) : string :=
  match cs with
  | [] => ""
  | c :: r =>
      match c with
      | ReadData n => snd (fst (readData n d))
      | _ => ""
      end ++ bodyRead r (step c d)
  end.

Fixpoint arrived (cs : list call) : string :=
  match cs with
  | [] => ""
  | OnReadyRead chunk :: r => chunk ++ arrived r
  | _ :: r => arrived r
  end.

Definition readsNonNegative (c : call) : Prop :=
  match c with ReadData n => 0 <= n | _ => True end.

(** Keys in strictly ascending order, each below all that follow. *)
Definition keyLt (a b : string) : Prop := String.compare a b = Lt.

(* ================================================================= *)
(** ** Strings *)

Section StringFacts.

Lemma append_nil_r (s : string) : s ++ "" = s.
Proof. induction s as [|c s IH]; simpl; [reflexivity | now rewrite IH]. Qed.

Lemma append_assoc (a b c : string) : (a ++ b) ++ c = a ++ (b ++ c).
Proof. induction a as [|x a IH]; simpl; [reflexivity | now rewrite IH]. Qed.

Lemma length_append (a b : string) :
  String.length (a ++ b) = (String.length a + String.length b)%nat.
Proof. induction a as [|x a IH]; simpl; [reflexivity | now rewrite IH]. Qed.

Lemma size_append (a b : string) : Qt.size (a ++ b) = Qt.size a + Qt.size b.
Proof. unfold Qt.size. rewrite length_append. lia. Qed.

Lemma size_nonneg (s : string) : 0 <= Qt.size s.
Proof. unfold Qt.size. lia. Qed.

Lemma take_append (n : nat) (a b : string) :
  (n <= String.length a)%nat -> Qt.take n (a ++ b) = Qt.take n a.
Proof.
  revert a; induction n as [|n IH]; intros a H.
  - reflexivity.
  - destruct a as [|x a]; simpl in *; [lia|].
    rewrite IH by lia. reflexivity.
Qed.

Lemma drop_append (n : nat) (a b : string) :
  (n <= String.length a)%nat -> Qt.drop n (a ++ b) = Qt.drop n a ++ b.
Proof.
  revert a; induction n as [|n IH]; intros a H.
  - reflexivity.
  - destruct a as [|x a]; simpl in *; [lia|].
    apply IH. lia.
Qed.

Lemma take_drop (n : nat) (s : string) : Qt.take n s ++ Qt.drop n s = s.
Proof.
  revert s; induction n as [|n IH]; intros [|x s]; simpl; try reflexivity.
  now rewrite IH.
Qed.

Lemma length_take (n : nat) (s : string) :
  String.length (Qt.take n s) = Nat.min n (String.length s).
Proof.
  revert s; induction n as [|n IH]; intros [|x s]; simpl; try reflexivity.
  now rewrite IH.
Qed.

Lemma take_all (a b : string) : Qt.take (String.length a) (a ++ b) = a.
Proof. induction a as [|x a IH]; simpl; [now destruct b | now rewrite IH]. Qed.

Lemma drop_all (a b : string) : Qt.drop (String.length a) (a ++ b) = b.
Proof. induction a as [|x a IH]; simpl; [reflexivity | exact IH]. Qed.

Lemma prefix_append (p a b : string) :
  String.prefix p a = true -> String.prefix p (a ++ b) = true.
Proof.
  revert a; induction p as [|x p IH]; intros a H.
  - now destruct (a ++ b).
  - destruct a as [|y a]; simpl in *; [discriminate|].
    destruct (ascii_dec x y); [now apply IH | discriminate].
Qed.

Lemma prefix_length (p s : string) :
  String.prefix p s = true -> (String.length p <= String.length s)%nat.
Proof.
  revert s; induction p as [|x p IH]; intros s H; simpl; [lia|].
  destruct s as [|y s]; simpl in *; [discriminate|].
  destruct (ascii_dec x y); [|discriminate].
  apply IH in H. lia.
Qed.

Lemma prefix_append_inv (p a b : string) :
  String.prefix p (a ++ b) = true ->
  (String.length p <= String.length a)%nat -> String.prefix p a = true.
Proof.
  revert a; induction p as [|x p IH]; intros a H L.
  - now destruct a.
  - destruct a as [|y a]; simpl in *; [lia|].
    destruct (ascii_dec x y); [apply IH; [assumption | lia] | discriminate].
Qed.

(** An occurrence found in a string lies inside it, and it is the one
    found in every extension of the string. *)
Lemma indexOf_from_found (p a : string) (i j : Z) :
  Qt.indexOf_from p a i = j -> j <> -1 -> 0 <= i ->
  i <= j /\ j - i + Qt.size p <= Qt.size a /\
  forall b, Qt.indexOf_from p (a ++ b) i = j.
Proof.
  revert i; induction a as [|x a IH]; intros i H Hj Hi.
  - cbn [Qt.indexOf_from] in H.
    destruct (String.prefix p "") eqn:E; [|congruence].
    subst j. pose proof (prefix_length _ _ E) as L.
    unfold Qt.size. simpl in L.
    repeat split; try lia.
    intros b. destruct p; [|simpl in L; lia].
    cbn [append Qt.indexOf_from]. now destruct b.
  - cbn [Qt.indexOf_from] in H.
    destruct (String.prefix p (String x a)) eqn:E.
    + subst j. pose proof (prefix_length _ _ E) as L.
      unfold Qt.size. repeat split; try lia.
      intros b. pose proof (prefix_append _ _ b E) as F.
      change (String x a ++ b) with (String x (a ++ b)) in *.
      cbn [Qt.indexOf_from]. now rewrite F.
    + destruct (IH (i + 1) H Hj ltac:(lia)) as (A & B & C).
      unfold Qt.size in *. cbn [String.length].
      repeat split; try lia.
      intros b. change (String x a ++ b) with (String x (a ++ b)).
      cbn [Qt.indexOf_from].
      destruct (String.prefix p (String x (a ++ b))) eqn:F; [|apply C].
      apply (prefix_append_inv p (String x a) b) in F;
        [congruence | cbn [String.length]; lia].
Qed.

Lemma prefix_char (x c : ascii) (t : string) :
  String.prefix (String x "") (String c t) = Ascii.eqb c x.
Proof.
  cbn [String.prefix]. destruct (ascii_dec x c) as [E|E].
  - subst c. rewrite Ascii.eqb_refl. now destruct t.
  - symmetry. apply Ascii.eqb_neq. congruence.
Qed.

Lemma indexOf_found (p a : string) (j : Z) :
  Qt.indexOf p a = j -> j <> -1 ->
  0 <= j /\ j + Qt.size p <= Qt.size a /\
  forall b, Qt.indexOf p (a ++ b) = j.
Proof.
  intros H Hj.
  destruct (indexOf_from_found p a 0 j H Hj ltac:(lia)) as (A & B & C).
  repeat split; [lia | lia | exact C].
Qed.

End StringFacts.

Section QtFacts.

Lemma left_inside (j : Z) (s : string) :
  0 <= j -> j < Qt.size s -> Qt.left j s = Qt.take (Z.to_nat j) s.
Proof.
  intros A B. unfold Qt.left.
  destruct (j <? 0) eqn:E; [lia|].
  destruct (Qt.size s <=? j) eqn:F; [lia | reflexivity].
Qed.

Lemma left_append (j : Z) (a b : string) :
  0 <= j -> j < Qt.size a -> Qt.left j (a ++ b) = Qt.left j a.
Proof.
  intros A B. pose proof (size_nonneg b).
  rewrite !left_inside by (rewrite ?size_append; lia).
  apply take_append. unfold Qt.size in B. lia.
Qed.

Lemma remove_front (n : Z) (s : string) :
  0 < n -> 0 < Qt.size s -> Qt.remove 0 n s = Qt.drop (Z.to_nat n) s.
Proof.
  intros A B. unfold Qt.remove.
  destruct (n <=? 0) eqn:E; [lia|].
  destruct (0 <? 0) eqn:F; [lia|].
  destruct (Qt.size s <=? 0) eqn:G; [lia|].
  reflexivity.
Qed.

Lemma remove_front_append (n : Z) (a b : string) :
  0 < n -> n <= Qt.size a ->
  Qt.remove 0 n (a ++ b) = Qt.remove 0 n a ++ b.
Proof.
  intros A B. pose proof (size_nonneg b).
  rewrite !remove_front by (rewrite ?size_append; lia).
  apply drop_append. unfold Qt.size in B. lia.
Qed.

End QtFacts.

(* ================================================================= *)
(** ** The parser leaves the buffer alone *)

Section BufferFrame.

Variable b : string.

Lemma abortWithError_set_buffer (e : Error) (d : QHttpSocketPrivate) :
  abortWithError e (set_buffer b d) = set_buffer b (abortWithError e d).
Proof. destruct e; reflexivity. Qed.

Lemma parseRequestLine_set_buffer (line : string) (d : QHttpSocketPrivate) :
  parseRequestLine line (set_buffer b d)
  = set_buffer b (parseRequestLine line d).
Proof.
  unfold parseRequestLine.
  destruct (negb _); [apply abortWithError_set_buffer|].
  destruct (_ && _); [apply abortWithError_set_buffer | reflexivity].
Qed.

Lemma parseRequestHeader_set_buffer (h : string) (d : QHttpSocketPrivate) :
  parseRequestHeader h (set_buffer b d)
  = set_buffer b (parseRequestHeader h d).
Proof.
  unfold parseRequestHeader.
  destruct (_ =? _); [apply abortWithError_set_buffer | reflexivity].
Qed.

Lemma parseRequestHeaders_set_buffer (hs : string) (d : QHttpSocketPrivate) :
  parseRequestHeaders hs (set_buffer b d)
  = set_buffer b (parseRequestHeaders hs d).
Proof.
  unfold parseRequestHeaders.
  destruct (Qt.split Qt.CRLF hs) as [|line parts]; [reflexivity|].
  rewrite parseRequestLine_set_buffer.
  generalize (parseRequestLine line d). clear d.
  induction parts as [|h parts IH]; intros d; simpl; [reflexivity|].
  rewrite parseRequestHeader_set_buffer. apply IH.
Qed.

End BufferFrame.

(* ================================================================= *)
(** ** The three ways through [onReadyRead] *)

Section OnReadyRead.

Variables (chunk : string) (d : QHttpSocketPrivate).

Lemma onReadyRead_body :
  requestHeadersRead d = true ->
  onReadyRead chunk d = emit SigReadyRead (set_buffer (buffer d ++ chunk) d).
Proof. intros H. unfold onReadyRead. simpl. now rewrite H. Qed.

Lemma onReadyRead_wait :
  requestHeadersRead d = false ->
  Qt.indexOf delimiter (buffer d ++ chunk) = -1 ->
  onReadyRead chunk d = set_buffer (buffer d ++ chunk) d.
Proof.
  intros H I. unfold onReadyRead. simpl. rewrite H. simpl.
  change (String Qt.CR (String Qt.LF Qt.CRLF)) with delimiter.
  now rewrite I.
Qed.

Lemma onReadyRead_parse :
  requestHeadersRead d = false ->
  Qt.indexOf delimiter (buffer d ++ chunk) <> -1 ->
  onReadyRead chunk d =
  let all := buffer d ++ chunk in
  let index := Qt.indexOf delimiter all in
  emit SigRequestHeadersParsed
    (set_requestHeadersRead true
       (set_buffer (Qt.remove 0 (index + 4) all)
          (parseRequestHeaders (Qt.toQString (Qt.left index all)) d))).
Proof.
  intros H I. unfold onReadyRead. simpl. rewrite H. simpl.
  change (String Qt.CR (String Qt.LF Qt.CRLF)) with delimiter.
  destruct (Qt.indexOf delimiter (buffer d ++ chunk) =? -1) eqn:E; [lia|].
  simpl. rewrite parseRequestHeaders_set_buffer. reflexivity.
Qed.

End OnReadyRead.

(** Two arrivals in a row leave the object as one arrival of both
    chunks does; only the trace can tell them apart. *)
Lemma onReadyRead_merge (c1 c2 : string) (d : QHttpSocketPrivate) :
  same_object (onReadyRead c2 (onReadyRead c1 d)) (onReadyRead (c1 ++ c2) d).
Proof.
  destruct (requestHeadersRead d) eqn:R.
  - rewrite (onReadyRead_body c1 d R), (onReadyRead_body (c1 ++ c2) d R).
    rewrite onReadyRead_body by exact R.
    unfold same_object; simpl. rewrite append_assoc. tauto.
  - destruct (Z.eq_dec (Qt.indexOf delimiter (buffer d ++ c1)) (-1)) as [I|I].
    + rewrite (onReadyRead_wait c1 d R I).
      set (d1 := set_buffer (buffer d ++ c1) d).
      assert (B : buffer d1 ++ c2 = buffer d ++ (c1 ++ c2))
        by (unfold d1; simpl; apply append_assoc).
      destruct (Z.eq_dec (Qt.indexOf delimiter (buffer d1 ++ c2)) (-1))
        as [J|J].
      * rewrite (onReadyRead_wait c2 d1 R J).
        rewrite B in J. rewrite (onReadyRead_wait (c1 ++ c2) d R J).
        unfold same_object, d1; simpl. rewrite append_assoc. tauto.
      * rewrite (onReadyRead_parse c2 d1 R J).
        rewrite B in J. rewrite (onReadyRead_parse (c1 ++ c2) d R J).
        cbv zeta. rewrite B. unfold d1.
        rewrite parseRequestHeaders_set_buffer.
        unfold same_object; simpl. tauto.
    + rewrite (onReadyRead_parse c1 d R I). cbv zeta.
      remember (buffer d ++ c1) as all eqn:A.
      remember (Qt.indexOf delimiter all) as j eqn:J. symmetry in J.
      destruct (indexOf_found delimiter all j J I) as (P & Q & X).
      change (Qt.size delimiter) with 4 in Q.
      assert (J2 : Qt.indexOf delimiter (buffer d ++ (c1 ++ c2)) = j)
        by (rewrite <- append_assoc, <- A; apply X).
      rewrite onReadyRead_body by reflexivity.
      rewrite (onReadyRead_parse (c1 ++ c2) d R) by (rewrite J2; exact I).
      cbv zeta. rewrite J2, <- append_assoc, <- A.
      rewrite left_append by lia.
      rewrite remove_front_append by lia.
      unfold same_object; simpl. tauto.
Qed.

Lemma same_object_trans (a b c : QHttpSocketPrivate) :
  same_object a b -> same_object b c -> same_object a c.
Proof. unfold same_object. intuition congruence. Qed.

Lemma deliver_cons (c : string) (cs : list string) (d : QHttpSocketPrivate) :
  same_object (deliver (c :: cs) d) (onReadyRead (flat (c :: cs)) d).
Proof.
  revert c d; induction cs as [|c2 cs IH]; intros c d.
  - simpl. rewrite append_nil_r. unfold same_object. tauto.
  - change (deliver (c :: c2 :: cs) d)
      with (deliver (c2 :: cs) (onReadyRead c d)).
    eapply same_object_trans; [apply IH|].
    change (flat (c :: c2 :: cs)) with (c ++ flat (c2 :: cs)).
    apply onReadyRead_merge.
Qed.

(** C7.  Chunk-boundary invariance: on a fresh connection, the chunks
    of a byte sequence, cut at any boundaries and fed one at a time
    through the data-arrival path, yield the same [requestMethod],
    [requestUri] and [requestHeaders] as the whole sequence delivered
    in one arrival; so do the error, the header flag and the bytes
    left in the buffer.  This holds for every byte sequence, the
    well-formed requests among them. *)
Theorem chunk_boundary_invariance (chunks : list string) :
  let many := deliver chunks initial in
  let one := onReadyRead (flat chunks) initial in
  requestMethod many = requestMethod one /\
  requestUri many = requestUri one /\
  requestHeaders many = requestHeaders one /\
  error many = error one /\
  requestHeadersRead many = requestHeadersRead one /\
  buffer many = buffer one.
Proof.
  destruct chunks as [|c cs].
  - cbv. tauto.
  - cbv zeta.
    pose proof (deliver_cons c cs initial) as S.
    unfold same_object in S. tauto.
Qed.

(* ================================================================= *)
(** ** Reading the body *)

(** C8.  [readData] answers [-1] and changes nothing while
    [requestHeadersRead] is false.  Otherwise, asked for [n >= 0]
    bytes, it returns [min n (size of the buffer)], hands out exactly
    that many bytes, which are the front of the buffer, and leaves the
    rest of the buffer, and every other member, as it was. *)
Theorem readData_contract (n : Z) (d : QHttpSocketPrivate) :
  0 <= n ->
  (requestHeadersRead d = false -> readData n d = (-1, "", d)) /\
  (requestHeadersRead d = true ->
   let '(count, data, d') := readData n d in
   count = Z.min n (Qt.size (buffer d)) /\
   Qt.size data = count /\
   buffer d = data ++ buffer d' /\
   Qt.size (buffer d') = Qt.size (buffer d) - count /\
   d' = set_buffer (buffer d') d).
Proof.
  intros N. split; intros R; unfold readData; rewrite R; simpl.
  - reflexivity.
  - set (m := Z.min (Qt.size (buffer d)) n).
    pose proof (size_nonneg (buffer d)) as P.
    assert (S : Qt.size (Qt.take (Z.to_nat m) (buffer d)) = m)
      by (unfold Qt.size in *; rewrite length_take; lia).
    assert (B : buffer d
                = Qt.take (Z.to_nat m) (buffer d) ++ Qt.remove 0 m (buffer d)).
    { destruct (Z.eq_dec m 0) as [Z0|Z0].
      - rewrite Z0. unfold Qt.remove. simpl. now destruct (buffer d).
      - rewrite remove_front by lia. symmetry. apply take_drop. }
    repeat split; try assumption; try lia.
    apply (f_equal Qt.size) in B. rewrite size_append in B. lia.
Qed.

Lemma readData_contract_witness :
  let d := onReadyRead ("GET / HTTP/1.0" ++ Qt.CRLF ++ Qt.CRLF ++ "hello")
                       initial in
  0 <= 3 /\ requestHeadersRead d = true /\
  let '(count, data, d') := readData 3 d in
  count = Z.min 3 (Qt.size (buffer d)) /\
  Qt.size data = count /\
  buffer d = data ++ buffer d' /\
  Qt.size (buffer d') = Qt.size (buffer d) - count /\
  d' = set_buffer (buffer d') d.
Proof.
  split; [lia|]. split; [reflexivity|].
  apply (readData_contract 3); [lia | reflexivity].
Defined.

(* ================================================================= *)
(** ** The request line *)

Section SplitOnSpace.

Lemma rev_string_app (acc : list ascii) (a b : string) :
  Qt.rev_string acc (a ++ b) = Qt.rev_string acc a ++ b.
Proof.
  revert a; induction acc as [|c acc IH]; intros a; simpl; [reflexivity|].
  apply (IH (String c a)).
Qed.

Lemma prefix_space (c : ascii) (t : string) :
  String.prefix " " (String c t) = Ascii.eqb c " ".
Proof. apply prefix_char. Qed.

(** A part runs up to the next space. *)
Lemma split_aux_space_part (m rest : string) (acc : list ascii) :
  lacks " " m ->
  Qt.split_aux " " 0 acc (m ++ String " " rest)
  = Qt.rev_string acc m :: Qt.split_aux " " 0 [] rest.
Proof.
  unfold lacks. revert acc; induction m as [|c m IH]; intros acc L.
  - cbn [append Qt.split_aux]. rewrite prefix_space. reflexivity.
  - cbn [count] in L. destruct (Ascii.eqb c " ") eqn:E; [discriminate|].
    change (String c m ++ String " " rest)
      with (String c (m ++ String " " rest)).
    cbn [Qt.split_aux]. rewrite prefix_space, E.
    rewrite IH by exact L. reflexivity.
Qed.

(** The last part runs to the end of the line. *)
Lemma split_aux_space_last (m : string) (acc : list ascii) :
  lacks " " m -> Qt.split_aux " " 0 acc m = [Qt.rev_string acc m].
Proof.
  unfold lacks. revert acc; induction m as [|c m IH]; intros acc L.
  - reflexivity.
  - cbn [count] in L. destruct (Ascii.eqb c " ") eqn:E; [discriminate|].
    cbn [Qt.split_aux]. rewrite prefix_space, E.
    rewrite IH by exact L. reflexivity.
Qed.

(** There is one part more than there are spaces. *)
Lemma split_aux_space_length (s : string) (acc : list ascii) :
  List.length (Qt.split_aux " " 0 acc s) = S (count " " s).
Proof.
  revert acc; induction s as [|c s IH]; intros acc; [reflexivity|].
  cbn [Qt.split_aux count]. rewrite prefix_space.
  destruct (Ascii.eqb c " "); cbn [List.length String.length Nat.sub];
    now rewrite IH.
Qed.

Lemma split_three (m u v : string) :
  lacks " " m -> lacks " " u -> lacks " " v ->
  Qt.split " " (m ++ " " ++ u ++ " " ++ v) = [m; u; v].
Proof.
  intros M U V. unfold Qt.split.
  change (" " ++ u ++ " " ++ v) with (String " " (u ++ String " " v)).
  rewrite split_aux_space_part by exact M.
  rewrite split_aux_space_part by exact U.
  rewrite split_aux_space_last by exact V.
  reflexivity.
Qed.

End SplitOnSpace.

(** C9.  [parseRequestLine] splits the line on single spaces.  A line
    whose number of fields, one more than its number of spaces, is not
    3 fails with [MalformedRequestLine]: that is the error afterwards.
    A line [m u v] of three fields whose third is neither [HTTP/1.0]
    nor [HTTP/1.1] fails with [InvalidHttpVersion].  Otherwise
    [requestMethod] is [m] and [requestUri] is [u] afterwards,
    verbatim, the error is as before and nothing else changes.  A
    failure is [abortWithError] and no more: method and URI are as
    they were. *)
Theorem parseRequestLine_contract (line : string) (d : QHttpSocketPrivate) :
  List.length (Qt.split " " line) = S (count " " line) /\
  (count " " line <> 2%nat ->
   parseRequestLine line d = abortWithError MalformedRequestLine d /\
   error (parseRequestLine line d) = MalformedRequestLine /\
   requestMethod (parseRequestLine line d) = requestMethod d /\
   requestUri (parseRequestLine line d) = requestUri d) /\
  (forall m u v,
     lacks " " m -> lacks " " u -> lacks " " v ->
     line = m ++ " " ++ u ++ " " ++ v ->
     if supportedVersion v
     then parseRequestLine line d
          = set_requestUri u (set_requestMethod m d) /\
          requestMethod (parseRequestLine line d) = m /\
          requestUri (parseRequestLine line d) = u /\
          error (parseRequestLine line d) = error d
     else parseRequestLine line d = abortWithError InvalidHttpVersion d /\
          error (parseRequestLine line d) = InvalidHttpVersion /\
          requestMethod (parseRequestLine line d) = requestMethod d /\
          requestUri (parseRequestLine line d) = requestUri d) /\
  (forall e,
     requestMethod (abortWithError e d) = requestMethod d /\
     requestUri (abortWithError e d) = requestUri d /\
     error (abortWithError e d) = e).
Proof.
  split; [apply split_aux_space_length|]. split; [|split].
  - intros C.
    assert (E : parseRequestLine line d
                = abortWithError MalformedRequestLine d).
    { unfold parseRequestLine, Qt.split.
      rewrite split_aux_space_length.
      destruct (S (count " " line) =? 3)%nat eqn:E; [|reflexivity].
      apply Nat.eqb_eq in E. lia. }
    rewrite E. repeat split.
  - intros m u v M U V ->.
    assert (E : parseRequestLine (m ++ " " ++ u ++ " " ++ v) d
                = if supportedVersion v
                  then set_requestUri u (set_requestMethod m d)
                  else abortWithError InvalidHttpVersion d).
    { unfold parseRequestLine.
      rewrite split_three by assumption. cbn [List.length Nat.eqb negb nth].
      unfold supportedVersion.
      destruct (String.eqb v "HTTP/1.0"), (String.eqb v "HTTP/1.1");
        reflexivity. }
    rewrite E. destruct (supportedVersion v); repeat split.
  - intros e. destruct e; repeat split.
Qed.

Lemma parseRequestLine_contract_witness :
  (requestMethod (parseRequestLine "GET /foo HTTP/1.1" initial) = "GET" /\
   requestUri (parseRequestLine "GET /foo HTTP/1.1" initial) = "/foo" /\
   error (parseRequestLine "GET /foo HTTP/1.1" initial) = NoError) /\
  (error (parseRequestLine "GET /foo FOO/9.9" initial) = InvalidHttpVersion /\
   requestMethod (parseRequestLine "GET /foo FOO/9.9" initial) = "" /\
   requestUri (parseRequestLine "GET /foo FOO/9.9" initial) = "") /\
  (error (parseRequestLine "GET /foo" initial) = MalformedRequestLine /\
   requestMethod (parseRequestLine "GET /foo" initial) = "" /\
   requestUri (parseRequestLine "GET /foo" initial) = "").
Proof.
  split; [|split].
  - exact (proj2 (proj1 (proj2 (proj2
      (parseRequestLine_contract "GET /foo HTTP/1.1" initial)))
      "GET" "/foo" "HTTP/1.1" eq_refl eq_refl eq_refl eq_refl)).
  - exact (proj2 (proj1 (proj2 (proj2
      (parseRequestLine_contract "GET /foo FOO/9.9" initial)))
      "GET" "/foo" "FOO/9.9" eq_refl eq_refl eq_refl eq_refl)).
  - refine (proj2 (proj1 (proj2 (parseRequestLine_contract "GET /foo" initial))
                     _)).
    vm_compute. discriminate.
Defined.

(* ================================================================= *)
(** ** Header lines *)

Section FirstColon.

Lemma indexOf_from_lacks (x : ascii) (s : string) (i : Z) :
  lacks x s -> Qt.indexOf_from (String x "") s i = -1.
Proof.
  unfold lacks. revert i; induction s as [|c s IH]; intros i L.
  - reflexivity.
  - cbn [count] in L. destruct (Ascii.eqb c x) eqn:E; [discriminate|].
    cbn [Qt.indexOf_from]. rewrite prefix_char, E. now apply IH.
Qed.

Lemma indexOf_from_first (x : ascii) (k v : string) (i : Z) :
  lacks x k ->
  Qt.indexOf_from (String x "") (k ++ String x v) i = i + Qt.size k.
Proof.
  unfold lacks, Qt.size. revert i; induction k as [|c k IH]; intros i L.
  - cbn [append Qt.indexOf_from]. rewrite prefix_char, Ascii.eqb_refl.
    simpl. lia.
  - cbn [count] in L. destruct (Ascii.eqb c x) eqn:E; [discriminate|].
    change (String c k ++ String x v) with (String c (k ++ String x v)).
    cbn [Qt.indexOf_from]. rewrite prefix_char, E.
    rewrite IH by exact L. cbn [String.length]. lia.
Qed.

Lemma left_first (k v : string) (x : ascii) :
  Qt.left (Qt.size k) (k ++ String x v) = k.
Proof.
  rewrite left_inside.
  - unfold Qt.size. rewrite Nat2Z.id. apply take_all.
  - apply size_nonneg.
  - rewrite size_append. unfold Qt.size. cbn [String.length]. lia.
Qed.

Lemma mid_first (k v : string) (x : ascii) :
  Qt.mid (Qt.size k + 1) (k ++ String x v) = v.
Proof.
  unfold Qt.mid. rewrite size_append.
  assert (A : Qt.size (String x v) = 1 + Qt.size v)
    by (unfold Qt.size; cbn [String.length]; lia).
  pose proof (size_nonneg v).
  destruct (Qt.size k + Qt.size (String x v) <? Qt.size k + 1) eqn:E; [lia|].
  unfold Qt.size. replace (Z.to_nat (Z.of_nat (String.length k) + 1))
    with (String.length (k ++ String x "")) by (rewrite length_append; simpl; lia).
  replace (k ++ String x v) with ((k ++ String x "") ++ v)
    by (now rewrite append_assoc).
  apply drop_all.
Qed.

End FirstColon.

Section QMapFacts.

Lemma compare_refl (k : string) : String.compare k k = Eq.
Proof.
  pose proof (String.compare_antisym k k) as A.
  destruct (String.compare k k); simpl in A; congruence.
Qed.

(** After an insertion the key holds the new value and every other
    key holds what it held. *)
Lemma find_insert (k v k' : string) (m : QMap.t) :
  QMap.find k' (QMap.insert k v m)
  = if String.eqb k' k then Some v else QMap.find k' m.
Proof.
  induction m as [|[k0 v0] m IH]; [reflexivity|].
  cbn [QMap.insert]. destruct (String.compare k k0) eqn:C.
  - apply String.compare_eq_iff in C. subst k0. cbn [QMap.find].
    now destruct (String.eqb k' k).
  - reflexivity.
  - cbn [QMap.find]. rewrite IH.
    destruct (String.eqb k' k0) eqn:E, (String.eqb k' k) eqn:F;
      try reflexivity.
    apply String.eqb_eq in E, F. subst. rewrite compare_refl in C.
    discriminate.
Qed.

Lemma insert_ascending (k v : string) (m : QMap.t) :
  ascending m -> ascending (QMap.insert k v m).
Proof.
  unfold ascending. induction m as [|[k0 v0] m IH]; intros S.
  - repeat constructor.
  - cbn [QMap.insert]. inversion S as [|? ? S' H]; subst.
    destruct (String.compare k k0) eqn:C.
    + apply String.compare_eq_iff in C. subst k0.
      constructor; [exact S' | destruct H; constructor; assumption].
    + constructor; [exact S | constructor; exact C].
    + constructor; [now apply IH|].
      assert (K : String.compare k0 k = Lt)
        by (rewrite String.compare_antisym, C; reflexivity).
      destruct m as [|[k1 v1] m]; cbn [QMap.insert].
      * constructor. exact K.
      * inversion H; subst.
        destruct (String.compare k k1); constructor; assumption.
Qed.

End QMapFacts.

Lemma requestHeaders_abortWithError (e : Error) (d : QHttpSocketPrivate) :
  requestHeaders (abortWithError e d) = requestHeaders d.
Proof. now destruct e. Qed.

Lemma requestHeaders_parseRequestHeader (l : string) (d : QHttpSocketPrivate) :
  requestHeaders (parseRequestHeader l d) =
  match headerName l with
  | None => requestHeaders d
  | Some key =>
      QMap.insert key (Qt.trimmed (Qt.mid (Qt.indexOf ":" l + 1) l))
                  (requestHeaders d)
  end.
Proof.
  unfold parseRequestHeader, headerName.
  destruct (Qt.indexOf ":" l =? -1);
    [apply requestHeaders_abortWithError | reflexivity].
Qed.

(** Lines that file nothing under a key leave its value alone. *)
Lemma find_after_other_lines (key : string) (post : list string) :
  Forall (fun l => headerName l <> Some key) post ->
  forall d,
    QMap.find key
      (requestHeaders
         (fold_left (fun d h => parseRequestHeader h d) post d))
    = QMap.find key (requestHeaders d).
Proof.
  induction 1 as [|l post H _ IH]; intros d; [reflexivity|].
  cbn [fold_left]. rewrite IH, requestHeaders_parseRequestHeader.
  destruct (headerName l) as [k0|]; [|reflexivity].
  rewrite find_insert. destruct (String.eqb key k0) eqn:E; [|reflexivity].
  apply String.eqb_eq in E. congruence.
Qed.

Lemma parseRequestHeader_colon (k v : string) (d : QHttpSocketPrivate) :
  lacks ":" k ->
  parseRequestHeader (k ++ ":" ++ v) d =
  set_requestHeaders
    (QMap.insert (Qt.toLower (Qt.trimmed k)) (Qt.trimmed v)
                 (requestHeaders d)) d.
Proof.
  intros L. unfold parseRequestHeader, Qt.indexOf.
  change (k ++ ":" ++ v) with (k ++ String ":" v).
  rewrite indexOf_from_first by exact L.
  pose proof (size_nonneg k).
  destruct (0 + Qt.size k =? -1) eqn:E; [lia|].
  replace (0 + Qt.size k) with (Qt.size k) by lia.
  now rewrite left_first, mid_first.
Qed.

(** C10.  [parseRequestHeader] looks for the first colon.  A line
    without one fails with [MalformedRequestHeader]: that is the error
    afterwards, and the headers are as they were.  A line [k:v], [k]
    free of colons, files the trimmed [v] under the trimmed,
    lower-cased [k] and leaves the error alone; filing under a key
    that is present replaces its value and touches no other key.
    [requestHeader] lower-cases the name it is asked for, so names
    that differ in case only get the same answer, and after the header
    lines of a block have been parsed in order the answer is the
    trimmed value of the last line filed under that name. *)
Theorem parseRequestHeader_contract :
  (forall header d,
     lacks ":" header ->
     parseRequestHeader header d = abortWithError MalformedRequestHeader d /\
     error (parseRequestHeader header d) = MalformedRequestHeader /\
     errorString (parseRequestHeader header d) = "Malformed request header" /\
     requestHeaders (parseRequestHeader header d) = requestHeaders d) /\
  (forall k v d,
     lacks ":" k ->
     parseRequestHeader (k ++ ":" ++ v) d =
     set_requestHeaders
       (QMap.insert (Qt.toLower (Qt.trimmed k)) (Qt.trimmed v)
                    (requestHeaders d)) d /\
     QMap.value (Qt.toLower (Qt.trimmed k))
       (requestHeaders (parseRequestHeader (k ++ ":" ++ v) d))
     = Qt.trimmed v /\
     (forall k', k' <> Qt.toLower (Qt.trimmed k) ->
        QMap.value k' (requestHeaders (parseRequestHeader (k ++ ":" ++ v) d))
        = QMap.value k' (requestHeaders d)) /\
     error (parseRequestHeader (k ++ ":" ++ v) d) = error d) /\
  (forall k v k' m,
     QMap.value k' (QMap.insert k v m)
     = if String.eqb k' k then v else QMap.value k' m) /\
  (forall a b d,
     Qt.toLower a = Qt.toLower b ->
     fst (requestHeader a d) = fst (requestHeader b d)) /\
  (forall pre k v post name d,
     lacks ":" k ->
     Qt.toLower name = Qt.toLower (Qt.trimmed k) ->
     Forall (fun l => headerName l <> Some (Qt.toLower name)) post ->
     fst (requestHeader name
            (fold_left (fun d h => parseRequestHeader h d)
                       (pre ++ (k ++ ":" ++ v) :: post) d))
     = Qt.trimmed v).
Proof.
  assert (V : forall k v k' m,
             QMap.value k' (QMap.insert k v m)
             = if String.eqb k' k then v else QMap.value k' m).
  { intros k v k' m. unfold QMap.value. rewrite find_insert.
    now destruct (String.eqb k' k). }
  split; [|split; [|split; [|split]]].
  - intros header d L.
    assert (E : parseRequestHeader header d
                = abortWithError MalformedRequestHeader d)
      by (unfold parseRequestHeader, Qt.indexOf;
          now rewrite indexOf_from_lacks).
    rewrite E. repeat split.
  - intros k v d L. rewrite (parseRequestHeader_colon k v d L).
    cbn [requestHeaders set_requestHeaders error].
    split; [reflexivity|]. split; [|split; [|reflexivity]].
    + now rewrite V, String.eqb_refl.
    + intros k' N. rewrite V.
      destruct (String.eqb k' (Qt.toLower (Qt.trimmed k))) eqn:E;
        [|reflexivity].
      apply String.eqb_eq in E. contradiction.
  - exact V.
  - intros a b d E. unfold requestHeader. cbn [fst]. now rewrite E.
  - intros pre k v post name d L N P.
    rewrite fold_left_app. cbn [fold_left].
    set (d0 := fold_left _ pre d).
    unfold requestHeader, warnUnread. cbn [fst].
    set (d1 := fold_left _ post _).
    assert (F : QMap.find (Qt.toLower name) (requestHeaders d1)
                = Some (Qt.trimmed v)).
    { unfold d1. rewrite find_after_other_lines by exact P.
      rewrite parseRequestHeader_colon by exact L.
      cbn [requestHeaders set_requestHeaders].
      rewrite find_insert, N, String.eqb_refl. reflexivity. }
    unfold QMap.value.
    destruct (negb (requestHeadersRead d1)); cbn [requestHeaders emit];
      now rewrite F.
Qed.

Lemma parseRequestHeader_contract_witness :
  (error (parseRequestHeader "X-Test no-colon" initial)
   = MalformedRequestHeader /\
   requestHeaders (parseRequestHeader "X-Test no-colon" initial) = []) /\
  QMap.value "x-tag"
    (requestHeaders (parseRequestHeader (" X-Tag " ++ ":" ++ " a:b ") initial))
  = "a:b" /\
  fst (requestHeader "CONTENT-type"
         (fold_left (fun d h => parseRequestHeader h d)
            (["Host: a"] ++ ("Content-Type " ++ ":" ++ " text/plain ")
               :: ["Accept: */*"; "no colon here"])
            initial))
  = "text/plain".
Proof.
  split; [|split].
  - destruct (proj1 parseRequestHeader_contract "X-Test no-colon" initial
                eq_refl) as (_ & E & _ & H).
    split; [exact E | exact H].
  - exact (proj1 (proj2 (proj1 (proj2 parseRequestHeader_contract)
                           " X-Tag " " a:b " initial eq_refl))).
  - apply (proj2 (proj2 (proj2 (proj2 parseRequestHeader_contract)))
             ["Host: a"] "Content-Type " " text/plain "
             ["Accept: */*"; "no colon here"] "CONTENT-type" initial).
    + reflexivity.
    + reflexivity.
    + repeat constructor; vm_compute; discriminate.
Defined.

(* ================================================================= *)
(** ** The response header string *)

Section Serialization.

Lemma arg_statusLine (statusCode : string) :
  Qt.arg ("HTTP/1.0 %1" ++ Qt.CRLF) [statusCode]
  = "HTTP/1.0 " ++ statusCode ++ Qt.CRLF.
Proof. reflexivity. Qed.

Lemma arg_headerLine (kv : string * string) :
  Qt.arg "%1: %2" [fst kv; snd kv] = headerLine kv.
Proof.
  destruct kv as [k v]. unfold headerLine. cbn [fst snd].
  transitivity (k ++ ": " ++ (v ++ "")); [reflexivity|].
  now rewrite append_nil_r.
Qed.

Lemma fold_appendHeader (m : QMap.t) (acc : string) :
  fold_left appendHeader m acc = acc ++ flat (map headerLine m).
Proof.
  revert acc; induction m as [|kv m IH]; intros acc; cbn [fold_left map flat fold_right].
  - now rewrite append_nil_r.
  - rewrite IH. unfold appendHeader. rewrite arg_headerLine.
    apply append_assoc.
Qed.

Lemma builtHeaders_eq (d : QHttpSocketPrivate) :
  builtHeaders d
  = "HTTP/1.0 " ++ responseStatusCode d ++ Qt.CRLF
      ++ flat (map headerLine (responseHeaders d)).
Proof.
  unfold builtHeaders. rewrite fold_appendHeader, arg_statusLine.
  now rewrite !append_assoc.
Qed.

End Serialization.

Lemma setHeaders_unwritten (ins : list (string * string))
      (d : QHttpSocketPrivate) :
  responseHeadersWritten d = false ->
  responseHeaders (setHeaders ins d)
  = fold_left (fun m kv => QMap.insert (fst kv) (snd kv) m) ins
              (responseHeaders d) /\
  responseStatusCode (setHeaders ins d) = responseStatusCode d /\
  responseHeadersWritten (setHeaders ins d) = false /\
  trace (setHeaders ins d) = trace d.
Proof.
  revert d; induction ins as [|kv ins IH]; intros d W.
  - now repeat split.
  - change (setHeaders (kv :: ins) d)
      with (setHeaders ins (setResponseHeader (fst kv) (snd kv) d)).
    assert (E : setResponseHeader (fst kv) (snd kv) d
                = set_responseHeaders
                    (QMap.insert (fst kv) (snd kv) (responseHeaders d)) d)
      by (unfold setResponseHeader, warnWritten; now rewrite W).
    rewrite E. apply (IH (set_responseHeaders _ d) W).
Qed.

Lemma find_inserts (k : string) (ins : list (string * string)) (m : QMap.t) :
  QMap.find k (fold_left (fun m kv => QMap.insert (fst kv) (snd kv) m) ins m)
  = match lastInserted k ins with
    | Some w => Some w
    | None => QMap.find k m
    end.
Proof.
  revert m; induction ins as [|[k' v] ins IH]; intros m; [reflexivity|].
  cbn [fold_left lastInserted fst snd]. rewrite IH.
  destruct (lastInserted k ins); [reflexivity|].
  rewrite find_insert. now destruct (String.eqb k k').
Qed.

Lemma inserts_ascending (ins : list (string * string)) (m : QMap.t) :
  ascending m ->
  ascending (fold_left (fun m kv => QMap.insert (fst kv) (snd kv) m) ins m).
Proof.
  revert m; induction ins as [|kv ins IH]; intros m A; [exact A|].
  cbn [fold_left]. apply IH. now apply insert_ascending.
Qed.

(** C6, as the code has it.  On a connection whose status code was set
    to [statusCode] and whose headers were set by the insertions
    [ins], [writeResponseHeaders] builds exactly one string:
    ["HTTP/1.0 "], the status code, CR LF, and then for each response
    header its name, [": "] and its value, with no line terminator
    after a header and no final blank line.  The headers come in
    ascending order of their names, each name once with the value
    last set for it; the order of insertion plays no part. *)
Theorem builtHeaders_key_order (statusCode : string)
        (ins : list (string * string)) :
  let d := setHeaders ins (setResponseStatusCode statusCode initial) in
  trace (writeResponseHeaders d) = [HeadersBuilt (builtHeaders d)] /\
  builtHeaders d
  = "HTTP/1.0 " ++ statusCode ++ Qt.CRLF
      ++ flat (map headerLine (responseHeaders d)) /\
  ascending (responseHeaders d) /\
  (forall k, QMap.find k (responseHeaders d) = lastInserted k ins).
Proof.
  cbv zeta.
  destruct (setHeaders_unwritten ins (setResponseStatusCode statusCode initial)
              eq_refl) as (H & C & W & T).
  split; [|split; [|split]].
  - unfold writeResponseHeaders. cbn [trace set_responseHeadersWritten emit].
    now rewrite T.
  - rewrite builtHeaders_eq, C. reflexivity.
  - rewrite H. apply inserts_ascending. constructor.
  - intros k. rewrite H, find_inserts.
    now destruct (lastInserted k ins).
Qed.

(** C6, as the specification words it, fails: with [B] set before [A]
    the string built has [A] first. *)
Lemma builtHeaders_insertion_order_counterexample :
  let ins := [("B", "2"); ("A", "1")] in
  let d := setHeaders ins (setResponseStatusCode "200 OK" initial) in
  builtHeaders d = "HTTP/1.0 200 OK" ++ Qt.CRLF ++ "A: 1B: 2" /\
  Spec.serialization "200 OK" ins
  = "HTTP/1.0 200 OK" ++ Qt.CRLF ++ "B: 2A: 1" /\
  builtHeaders d <> Spec.serialization "200 OK" ins.
Proof.
  cbv zeta. split; [reflexivity|]. split; [reflexivity|].
  vm_compute. discriminate.
Qed.

(* ================================================================= *)
(** ** Setting the response after the headers were written *)

(** C4, as the code has it.  Once [responseHeadersWritten] is true, a
    call that sets the status code or a response header raises the
    usage warning and then applies the mutation all the same:
    [responseStatusCode] becomes the given code, [responseHeaders]
    holds the given value under the given name.  Nothing else of the
    object changes, [responseHeadersWritten] included. *)
Theorem setters_after_headers_written (d : QHttpSocketPrivate)
        (statusCode header value : string) :
  responseHeadersWritten d = true ->
  setResponseStatusCode statusCode d
  = set_responseStatusCode statusCode (emit alreadyWritten d) /\
  setResponseHeader header value d
  = set_responseHeaders (QMap.insert header value (responseHeaders d))
                        (emit alreadyWritten d) /\
  responseStatusCode (setResponseStatusCode statusCode d) = statusCode /\
  QMap.value header (responseHeaders (setResponseHeader header value d))
  = value.
Proof.
  intros W. unfold setResponseStatusCode, setResponseHeader, warnWritten.
  rewrite W. fold alreadyWritten. repeat split.
  cbn [responseHeaders set_responseHeaders emit]. unfold QMap.value.
  now rewrite find_insert, String.eqb_refl.
Qed.

Lemma setters_after_headers_written_witness :
  let d := close initial in
  responseHeadersWritten d = true /\
  responseStatusCode (setResponseStatusCode "404 Not Found" d)
  = "404 Not Found" /\
  QMap.value "Content-Type"
    (responseHeaders (setResponseHeader "Content-Type" "text/html" d))
  = "text/html".
Proof.
  cbv zeta. split; [reflexivity|].
  pose proof (setters_after_headers_written (close initial)
                "404 Not Found" "Content-Type" "text/html" eq_refl)
    as (_ & _ & A & B).
  split; [exact A | exact B].
Defined.

(** C4, as the specification words it, fails: after the headers were
    written both setters still change what they set. *)
Lemma frozen_response_counterexample :
  let d := writeResponseHeaders initial in
  responseHeadersWritten d = true /\
  responseStatusCode (setResponseStatusCode "404 Not Found" d)
  <> responseStatusCode d /\
  responseHeaders (setResponseHeader "Content-Type" "text/html" d)
  <> responseHeaders d.
Proof.
  cbv zeta. split; [reflexivity|]. split; vm_compute; discriminate.
Qed.

(* ================================================================= *)
(** ** What reaches the socket *)

Section Wire.

Lemma socketWrites_app (t u : list event) :
  socketWrites (t ++ u) = (socketWrites t ++ socketWrites u)%list.
Proof.
  induction t as [|e t IH]; [reflexivity|].
  destruct e; cbn [app socketWrites]; now rewrite IH.
Qed.

Lemma headersBuilt_app (t u : list event) :
  headersBuilt (t ++ u) = (headersBuilt t ++ headersBuilt u)%list.
Proof.
  induction t as [|e t IH]; [reflexivity|].
  destruct e; cbn [app headersBuilt]; now rewrite IH.
Qed.

Ltac trace_simpl :=
  cbn [trace responseHeadersWritten emit set_error setErrorString set_buffer
       set_requestHeadersRead set_requestMethod set_requestUri
       set_requestHeaders set_responseStatusCode set_responseHeaders
       set_responseHeadersWritten];
  rewrite ?socketWrites_app, ?headersBuilt_app;
  cbn [socketWrites headersBuilt];
  rewrite ?app_nil_r.

Lemma silent_id : silent (fun d => d).
Proof. intros d. tauto. Qed.

Lemma silent_comp (f g : QHttpSocketPrivate -> QHttpSocketPrivate) :
  silent f -> silent g -> silent (fun d => g (f d)).
Proof.
  intros F G d. destruct (F d) as (A & B & C), (G (f d)) as (A' & B' & C').
  repeat split; congruence.
Qed.

Lemma silent_abortWithError (e : Error) : silent (abortWithError e).
Proof. intros d. destruct e; unfold abortWithError; trace_simpl; tauto. Qed.

Lemma silent_parseRequestLine (line : string) : silent (parseRequestLine line).
Proof.
  intros d. unfold parseRequestLine.
  destruct (negb _); [apply silent_abortWithError|].
  destruct (_ && _); [apply silent_abortWithError|].
  trace_simpl. tauto.
Qed.

Lemma silent_parseRequestHeader (h : string) : silent (parseRequestHeader h).
Proof.
  intros d. unfold parseRequestHeader.
  destruct (_ =? _); [apply silent_abortWithError|].
  trace_simpl. tauto.
Qed.

Lemma silent_fold (A : Type) (f : A -> QHttpSocketPrivate -> QHttpSocketPrivate)
      (l : list A) :
  (forall a, silent (f a)) -> silent (fold_left (fun d a => f a d) l).
Proof.
  intros F. induction l as [|a l IH]; [apply silent_id|].
  cbn [fold_left]. apply (silent_comp (f a) _ (F a) IH).
Qed.

Lemma silent_parseRequestHeaders (hs : string) :
  silent (parseRequestHeaders hs).
Proof.
  unfold parseRequestHeaders.
  destruct (Qt.split Qt.CRLF hs) as [|line parts]; [apply silent_id|].
  apply (silent_comp (parseRequestLine line)
           (fold_left (fun d h => parseRequestHeader h d) parts)).
  - apply silent_parseRequestLine.
  - apply silent_fold. apply silent_parseRequestHeader.
Qed.

Lemma silent_onReadyRead (chunk : string) : silent (onReadyRead chunk).
Proof.
  intros d. destruct (requestHeadersRead d) eqn:R.
  - rewrite onReadyRead_body by exact R. trace_simpl. tauto.
  - destruct (Z.eq_dec (Qt.indexOf delimiter (buffer d ++ chunk)) (-1))
      as [I|I].
    + rewrite onReadyRead_wait by assumption. trace_simpl. tauto.
    + rewrite onReadyRead_parse by assumption. cbv zeta. trace_simpl.
      apply silent_parseRequestHeaders.
Qed.

Lemma silent_warnUnread : silent warnUnread.
Proof.
  intros d. unfold warnUnread.
  destruct (negb _); trace_simpl; tauto.
Qed.

Lemma silent_warnWritten : silent warnWritten.
Proof.
  intros d. unfold warnWritten.
  destruct (responseHeadersWritten d) eqn:W; trace_simpl; tauto.
Qed.

Lemma silent_setResponseStatusCode (c : string) :
  silent (setResponseStatusCode c).
Proof.
  intros d. unfold setResponseStatusCode. trace_simpl.
  apply silent_warnWritten.
Qed.

Lemma silent_setResponseHeader (h v : string) :
  silent (setResponseHeader h v).
Proof.
  intros d. unfold setResponseHeader. trace_simpl.
  apply silent_warnWritten.
Qed.

Lemma silent_readData (n : Z) : silent (fun d => snd (readData n d)).
Proof.
  intros d. unfold readData.
  destruct (negb _); cbn [snd]; trace_simpl; tauto.
Qed.

(** [writeResponseHeaders] builds its string and sets the flag; the
    socket sees nothing of it. *)
Lemma writeResponseHeaders_wire (d : QHttpSocketPrivate) :
  socketWrites (trace (writeResponseHeaders d)) = socketWrites (trace d) /\
  headersBuilt (trace (writeResponseHeaders d))
  = (headersBuilt (trace d) ++ [builtHeaders d])%list /\
  responseHeadersWritten (writeResponseHeaders d) = true.
Proof. unfold writeResponseHeaders. trace_simpl. tauto. Qed.

(** The deferred step shared by [writeData] and [close]. *)
Lemma ensureHeaders_wire (d : QHttpSocketPrivate) :
  let d' := if negb (responseHeadersWritten d)
            then writeResponseHeaders d else d in
  socketWrites (trace d') = socketWrites (trace d) /\
  headersBuilt (trace d')
  = (headersBuilt (trace d)
       ++ (if responseHeadersWritten d then [] else [builtHeaders d]))%list /\
  responseHeadersWritten d' = true.
Proof.
  cbv zeta. destruct (responseHeadersWritten d) eqn:W; cbn [negb].
  - rewrite app_nil_r. tauto.
  - apply writeResponseHeaders_wire.
Qed.

Lemma step_socketWrites (c : call) (d : QHttpSocketPrivate) :
  socketWrites (trace (step c d))
  = (socketWrites (trace d) ++ payloads [c])%list.
Proof.
  destruct c; cbn [step payloads]; rewrite ?app_nil_r;
    try (unfold getRequestMethod, getRequestUri, getRequestHeaders,
           requestHeader; cbn [snd]; apply silent_warnUnread).
  - apply silent_onReadyRead.
  - unfold close. trace_simpl. apply ensureHeaders_wire.
  - reflexivity.
  - apply silent_setResponseStatusCode.
  - apply silent_setResponseHeader.
  - apply (silent_readData maxlen).
  - unfold writeData. cbn [snd]. trace_simpl.
    now rewrite (proj1 (ensureHeaders_wire d)).
Qed.

Lemma silent_builtOnce (f : QHttpSocketPrivate -> QHttpSocketPrivate)
      (d : QHttpSocketPrivate) :
  silent f -> builtOnce d -> builtOnce (f d).
Proof.
  unfold builtOnce. intros F B. destruct (F d) as (_ & H & W).
  now rewrite H, W.
Qed.

Lemma ensureHeaders_builtOnce (d : QHttpSocketPrivate) :
  builtOnce d ->
  builtOnce (if negb (responseHeadersWritten d)
             then writeResponseHeaders d else d).
Proof.
  unfold builtOnce. intros B.
  destruct (ensureHeaders_wire d) as (_ & H & W). cbv zeta in H, W.
  rewrite H, W, length_app, B.
  now destruct (responseHeadersWritten d).
Qed.

Lemma step_builtOnce (c : call) (d : QHttpSocketPrivate) :
  builtOnce d -> builtOnce (step c d).
Proof.
  intros B. destruct c; cbn [step];
    try (unfold getRequestMethod, getRequestUri, getRequestHeaders,
           requestHeader; cbn [snd];
         apply (silent_builtOnce warnUnread); [apply silent_warnUnread | exact B]).
  - apply (silent_builtOnce _ d (silent_onReadyRead chunk) B).
  - unfold close.
    apply (silent_builtOnce (emit SocketClose));
      [intros x; trace_simpl; tauto | now apply ensureHeaders_builtOnce].
  - exact B.
  - apply (silent_builtOnce _ d (silent_setResponseStatusCode statusCode) B).
  - apply (silent_builtOnce _ d (silent_setResponseHeader header value) B).
  - apply (silent_builtOnce _ d (silent_readData maxlen) B).
  - unfold writeData. cbn [snd].
    pose proof (ensureHeaders_builtOnce d B) as E.
    unfold builtOnce in *. trace_simpl. exact E.
Qed.

End Wire.

Lemma run_builtOnce (cs : list call) (d : QHttpSocketPrivate) :
  builtOnce d -> builtOnce (run cs d).
Proof.
  revert d; induction cs as [|c cs IH]; intros d B; [exact B|].
  apply IH. now apply step_builtOnce.
Qed.

(** C3.  Over every sequence of calls on one adapter, the payloads
    handed to the socket's write primitive are exactly the payloads
    given to [writeData], in order.  [writeResponseHeaders] builds the
    status-line-and-headers string and sets [responseHeadersWritten],
    and hands the socket nothing: no byte of the string reaches the
    transport. *)
Theorem socket_receives_payloads_only (cs : list call)
        (d : QHttpSocketPrivate) :
  socketWrites (trace (run cs d))
  = (socketWrites (trace d) ++ payloads cs)%list /\
  socketWrites (trace (writeResponseHeaders d)) = socketWrites (trace d) /\
  headersBuilt (trace (writeResponseHeaders d))
  = (headersBuilt (trace d) ++ [builtHeaders d])%list /\
  responseHeadersWritten (writeResponseHeaders d) = true.
Proof.
  split; [|apply writeResponseHeaders_wire].
  revert d; induction cs as [|c cs IH]; intros d.
  - cbn [run fold_left payloads]. now rewrite app_nil_r.
  - change (run (c :: cs) d) with (run cs (step c d)).
    rewrite IH, step_socketWrites, <- app_assoc.
    f_equal. destruct c; reflexivity.
Qed.

(** C2 on the code.  The header string is built once, by the first
    body write or by a close without one, and never a second time;
    but it is not written to the socket.  After a first write of
    ["hi"] on a fresh connection the socket has been handed ["hi"] and
    nothing before it; after a close on a fresh connection it has been
    handed nothing at all. *)
Theorem response_headers_built_not_sent :
  (forall cs, builtOnce (run cs initial)) /\
  (let d := snd (writeData "hi" 2 initial) in
   trace d = [HeadersBuilt ("HTTP/1.0 200 OK" ++ Qt.CRLF); SocketWrite "hi"] /\
   socketWrites (trace d) = ["hi"]) /\
  (let d := close initial in
   trace d = [HeadersBuilt ("HTTP/1.0 200 OK" ++ Qt.CRLF); SocketClose] /\
   socketWrites (trace d) = []).
Proof.
  split; [|split].
  - intros cs. apply run_builtOnce. reflexivity.
  - cbv zeta. split; reflexivity.
  - cbv zeta. split; reflexivity.
Qed.

(* ================================================================= *)
(** ** Parse failures *)

Section ErrorMember.

Lemma keepsError_comp (f g : QHttpSocketPrivate -> QHttpSocketPrivate) :
  keepsError f -> keepsError g -> keepsError (fun d => g (f d)).
Proof.
  intros F G d. destruct (G (f d)) as [E|E]; [|now right].
  rewrite E. apply F.
Qed.

Lemma keepsError_parseRequestLine (line : string) :
  keepsError (parseRequestLine line).
Proof.
  intros d. unfold parseRequestLine.
  destruct (negb _); [right; discriminate|].
  destruct (_ && _); [right; discriminate | now left].
Qed.

Lemma keepsError_parseRequestHeader (h : string) :
  keepsError (parseRequestHeader h).
Proof.
  intros d. unfold parseRequestHeader.
  destruct (_ =? _); [right; discriminate | now left].
Qed.

Lemma keepsError_parseRequestHeaders (hs : string) :
  keepsError (parseRequestHeaders hs).
Proof.
  unfold parseRequestHeaders.
  destruct (Qt.split Qt.CRLF hs) as [|line parts]; [now left|].
  apply (keepsError_comp (parseRequestLine line)
           (fold_left (fun d h => parseRequestHeader h d) parts)).
  - apply keepsError_parseRequestLine.
  - induction parts as [|h parts IH]; [now left|].
    cbn [fold_left].
    apply (keepsError_comp (parseRequestHeader h) _
             (keepsError_parseRequestHeader h) IH).
Qed.

Lemma keepsError_onReadyRead (chunk : string) : keepsError (onReadyRead chunk).
Proof.
  intros d. destruct (requestHeadersRead d) eqn:R.
  - rewrite onReadyRead_body by exact R. now left.
  - destruct (Z.eq_dec (Qt.indexOf delimiter (buffer d ++ chunk)) (-1))
      as [I|I].
    + rewrite onReadyRead_wait by assumption. now left.
    + rewrite onReadyRead_parse by assumption. cbv zeta.
      apply keepsError_parseRequestHeaders.
Qed.

Lemma keepsError_step (c : call) : keepsError (step c).
Proof.
  destruct c; try apply keepsError_onReadyRead; intros d; left;
    cbn [step];
    unfold close, getRequestMethod, getRequestUri, getRequestHeaders,
      requestHeader, setResponseStatusCode, setResponseHeader, readData,
      writeData, warnUnread, warnWritten, writeResponseHeaders;
    repeat match goal with |- context [if ?b then _ else _] => destruct b end;
    reflexivity.
Qed.

(** Once set, [error] is never [NoError] again, whatever is called. *)
Lemma error_never_cleared (cs : list call) (d : QHttpSocketPrivate) :
  error d <> NoError -> error (run cs d) <> NoError.
Proof.
  revert d; induction cs as [|c cs IH]; intros d E; [exact E|].
  change (run (c :: cs) d) with (run cs (step c d)). apply IH.
  destruct (keepsError_step c d) as [K|K]; [now rewrite K | exact K].
Qed.

End ErrorMember.

(** C1 on the code.  A complete header block with a malformed request
    line, or with a header line that has no colon, raises the error
    notification, and then [onReadyRead] goes on: it sets
    [requestHeadersRead] and raises "request headers parsed" all the
    same. *)
Theorem headers_parsed_raised_after_error :
  (let d := onReadyRead badRequestLine initial in
   error d = MalformedRequestLine /\
   requestHeadersRead d = true /\
   trace d = [SigErrorChanged MalformedRequestLine; SigRequestHeadersParsed]) /\
  (let d := onReadyRead badHeaderLine initial in
   error d = MalformedRequestHeader /\
   requestHeadersRead d = true /\
   trace d
   = [SigErrorChanged MalformedRequestHeader; SigRequestHeadersParsed]).
Proof. split; cbv zeta; repeat split; reflexivity. Qed.

(** C5 on the code.  A header block with a malformed request line and
    a header line without a colon sets [error] twice: the request
    line's [MalformedRequestLine] is overwritten by the header's
    [MalformedRequestHeader], and the error notification is raised for
    each. *)
Theorem last_parse_failure_wins :
  let d := onReadyRead twoFaults initial in
  error d = MalformedRequestHeader /\
  errorString d = "Malformed request header" /\
  trace d = [SigErrorChanged MalformedRequestLine;
             SigErrorChanged MalformedRequestHeader;
             SigRequestHeadersParsed].
Proof. cbv zeta. repeat split; reflexivity. Qed.

(* ================================================================= *)
(** ** Waiting for the header block, and after it *)

Lemma set_buffer_same (d : QHttpSocketPrivate) : set_buffer (buffer d) d = d.
Proof. now destruct d. Qed.

(** A string without the delimiter has none in any of its prefixes. *)
Lemma indexOf_absent_prefix (p a b : string) :
  Qt.indexOf p (a ++ b) = -1 -> Qt.indexOf p a = -1.
Proof.
  intros H. destruct (Z.eq_dec (Qt.indexOf p a) (-1)) as [E|E]; [exact E|].
  destruct (indexOf_found p a _ eq_refl E) as (_ & _ & X).
  rewrite X in H. contradiction.
Qed.

Lemma deliver_waiting (chunks : list string) (d : QHttpSocketPrivate) :
  requestHeadersRead d = false ->
  Qt.indexOf delimiter (buffer d ++ flat chunks) = -1 ->
  deliver chunks d = set_buffer (buffer d ++ flat chunks) d.
Proof.
  revert d; induction chunks as [|c cs IH]; intros d R I.
  - cbn [flat fold_right deliver fold_left].
    now rewrite append_nil_r, set_buffer_same.
  - change (deliver (c :: cs) d) with (deliver cs (onReadyRead c d)).
    change (flat (c :: cs)) with (c ++ flat cs) in *.
    rewrite <- append_assoc in I.
    rewrite (onReadyRead_wait c d R (indexOf_absent_prefix _ _ _ I)).
    rewrite IH; cbn [buffer set_buffer requestHeadersRead]; try assumption.
    now rewrite append_assoc.
Qed.

(** X1.  While the bytes received so far hold no CR LF CR LF, however
    they were cut into arrivals, nothing is parsed and nothing is
    raised: the object is the fresh one with all the bytes in its
    buffer, and [readData] still answers [-1]. *)
Theorem incomplete_headers_only_accumulate (chunks : list string) (n : Z) :
  Qt.indexOf delimiter (flat chunks) = -1 ->
  deliver chunks initial = set_buffer (flat chunks) initial /\
  fst (fst (readData n (deliver chunks initial))) = -1.
Proof.
  intros I.
  assert (E : deliver chunks initial = set_buffer (flat chunks) initial)
    by (apply (deliver_waiting chunks initial eq_refl); exact I).
  split; [exact E | now rewrite E].
Qed.

Lemma incomplete_headers_only_accumulate_witness :
  let chunks := ["GET / HT"; "TP/1.1" ++ Qt.CRLF; "Host: a" ++ Qt.CRLF] in
  Qt.indexOf delimiter (flat chunks) = -1 /\
  deliver chunks initial = set_buffer (flat chunks) initial /\
  fst (fst (readData 5 (deliver chunks initial))) = -1.
Proof.
  cbv zeta. split; [reflexivity|].
  apply incomplete_headers_only_accumulate. reflexivity.
Defined.

(** X2.  Once [requestHeadersRead] is set, data arrivals are body
    data: each arrival appends its bytes to the buffer and raises one
    "ready read"; the header parser is not entered again, so error,
    method, URI and headers, and the whole response side, stay as they
    are. *)
Theorem arrivals_after_headers_are_body (chunks : list string)
        (d : QHttpSocketPrivate) :
  requestHeadersRead d = true ->
  same_object (deliver chunks d) (set_buffer (buffer d ++ flat chunks) d) /\
  trace (deliver chunks d)
  = (trace d ++ repeat SigReadyRead (List.length chunks))%list.
Proof.
  revert d; induction chunks as [|c cs IH]; intros d R.
  - cbn [flat fold_right deliver fold_left List.length repeat].
    rewrite append_nil_r, set_buffer_same, app_nil_r.
    unfold same_object. tauto.
  - change (deliver (c :: cs) d) with (deliver cs (onReadyRead c d)).
    rewrite (onReadyRead_body c d R).
    destruct (IH (emit SigReadyRead (set_buffer (buffer d ++ c) d)) R)
      as (S & T).
    split.
    + eapply same_object_trans; [exact S|].
      cbn [buffer emit set_buffer flat fold_right].
      rewrite append_assoc. unfold same_object. cbn. tauto.
    + rewrite T. cbn [trace emit set_buffer List.length repeat].
      now rewrite <- app_assoc.
Qed.

Lemma arrivals_after_headers_are_body_witness :
  let d := onReadyRead ("GET / HTTP/1.0" ++ Qt.CRLF ++ Qt.CRLF ++ "he")
                       initial in
  requestHeadersRead d = true /\
  buffer (deliver ["ll"; "o"] d) = "hello" /\
  trace (deliver ["ll"; "o"] d)
  = [SigRequestHeadersParsed; SigReadyRead; SigReadyRead].
Proof.
  cbv zeta. split; [reflexivity|].
  destruct (arrivals_after_headers_are_body ["ll"; "o"]
              (onReadyRead ("GET / HTTP/1.0" ++ Qt.CRLF ++ Qt.CRLF ++ "he")
                           initial) eq_refl) as (S & T).
  split; [exact (proj1 (proj2 (proj2 S))) | exact T].
Defined.

(* ================================================================= *)
(** ** Reading in pieces *)

Section ReadData.

Lemma take_plus (a b : nat) (s : string) :
  Qt.take (a + b) s = Qt.take a s ++ Qt.take b (Qt.drop a s).
Proof.
  revert s; induction a as [|a IH]; intros s; [reflexivity|].
  destruct s as [|c s]; cbn [Nat.add Qt.take Qt.drop append].
  - now destruct b.
  - now rewrite IH.
Qed.

Lemma drop_plus (a b : nat) (s : string) :
  Qt.drop (a + b) s = Qt.drop b (Qt.drop a s).
Proof.
  revert s; induction a as [|a IH]; intros s; [reflexivity|].
  destruct s as [|c s]; cbn [Nat.add Qt.drop]; [now destruct b | apply IH].
Qed.

Lemma length_drop (n : nat) (s : string) :
  String.length (Qt.drop n s) = (String.length s - n)%nat.
Proof.
  revert s; induction n as [|n IH]; intros s; cbn [Qt.drop].
  - lia.
  - destruct s as [|c s]; cbn [String.length]; [reflexivity | apply IH].
Qed.

Lemma take_beyond (n : nat) (s : string) :
  (String.length s <= n)%nat -> Qt.take n s = s.
Proof.
  revert s; induction n as [|n IH]; intros [|c s] L; cbn in *;
    try reflexivity; try lia.
  rewrite IH by lia. reflexivity.
Qed.

Lemma drop_beyond (n : nat) (s : string) :
  (String.length s <= n)%nat -> Qt.drop n s = "".
Proof.
  revert s; induction n as [|n IH]; intros [|c s] L; cbn in *;
    try reflexivity; try lia.
  apply IH. lia.
Qed.

Lemma remove_front_drop (m : Z) (s : string) :
  0 <= m -> m <= Qt.size s -> Qt.remove 0 m s = Qt.drop (Z.to_nat m) s.
Proof.
  intros A B. destruct (Z.eq_dec m 0) as [E|E].
  - subst m. reflexivity.
  - apply remove_front; lia.
Qed.

(** [readData] once the headers are read, with the removal written
    as a drop. *)
Lemma readData_ready (n : Z) (d : QHttpSocketPrivate) :
  requestHeadersRead d = true -> 0 <= n ->
  readData n d =
  let k := Z.to_nat (Z.min (Qt.size (buffer d)) n) in
  (Z.of_nat k, Qt.take k (buffer d), set_buffer (Qt.drop k (buffer d)) d).
Proof.
  intros R N. unfold readData. rewrite R. cbn [negb]. cbv zeta.
  pose proof (size_nonneg (buffer d)).
  rewrite remove_front_drop by lia.
  rewrite Z2Nat.id by lia. reflexivity.
Qed.

End ReadData.

(** X3.  Reading in two goes is reading in one: with the headers read
    and [n1, n2 >= 0], a [readData] of [n1] followed by one of [n2]
    hands out, end to end, the bytes a single [readData] of [n1 + n2]
    hands out, the counts add up, and the object is left the same. *)
Theorem readData_twice (n1 n2 : Z) (d : QHttpSocketPrivate) :
  requestHeadersRead d = true -> 0 <= n1 -> 0 <= n2 ->
  let '(c1, data1, d1) := readData n1 d in
  let '(c2, data2, d2) := readData n2 d1 in
  let '(c, data, d') := readData (n1 + n2) d in
  c1 + c2 = c /\ data1 ++ data2 = data /\ d2 = d'.
Proof.
  intros R N1 N2.
  rewrite (readData_ready n1 d R N1). cbv beta iota zeta.
  rewrite (readData_ready n2 (set_buffer _ d) R N2). cbv beta iota zeta.
  rewrite (readData_ready (n1 + n2) d R) by lia. cbv beta iota zeta.
  cbn [buffer set_buffer].
  set (b := buffer d).
  set (k1 := Z.to_nat (Z.min (Qt.size b) n1)).
  assert (L : Qt.size (Qt.drop k1 b) = Qt.size b - Z.of_nat k1)
    by (unfold Qt.size, k1; rewrite length_drop; unfold Qt.size; lia).
  set (k2 := Z.to_nat (Z.min (Qt.size (Qt.drop k1 b)) n2)).
  assert (K : Z.to_nat (Z.min (Qt.size b) (n1 + n2)) = (k1 + k2)%nat)
    by (unfold k2, k1 in *; pose proof (size_nonneg b); lia).
  rewrite K. repeat split.
  - lia.
  - now rewrite take_plus.
  - now rewrite drop_plus.
Qed.

Lemma readData_twice_witness :
  let d := onReadyRead ("GET / HTTP/1.0" ++ Qt.CRLF ++ Qt.CRLF ++ "hello")
                       initial in
  requestHeadersRead d = true /\ 0 <= 2 /\ 0 <= 7 /\
  let '(c1, data1, d1) := readData 2 d in
  let '(c2, data2, d2) := readData 7 d1 in
  let '(c, data, d') := readData (2 + 7) d in
  c1 + c2 = c /\ data1 ++ data2 = data /\ d2 = d'.
Proof.
  cbv zeta. split; [reflexivity|]. split; [lia|]. split; [lia|].
  apply (readData_twice 2 7); [reflexivity | lia | lia].
Defined.

(** X4.  Asked for at least as many bytes as the buffer holds,
    [readData] hands out the whole buffer and leaves it empty; on an
    empty buffer it returns 0, hands out nothing and leaves the object
    as it is, so a count of 0 tells of no end of stream. *)
Theorem readData_drains (n : Z) (d : QHttpSocketPrivate) :
  requestHeadersRead d = true -> Qt.size (buffer d) <= n ->
  readData n d = (Qt.size (buffer d), buffer d, set_buffer "" d) /\
  readData n (set_buffer "" d) = (0, "", set_buffer "" d).
Proof.
  intros R N. pose proof (size_nonneg (buffer d)) as P.
  split.
  - rewrite (readData_ready n d R) by lia. cbv zeta.
    replace (Z.min (Qt.size (buffer d)) n) with (Qt.size (buffer d)) by lia.
    unfold Qt.size. rewrite Nat2Z.id.
    now rewrite take_beyond, drop_beyond by lia.
  - rewrite readData_ready by (assumption || lia).
    cbv zeta. cbn [buffer set_buffer]. change (Qt.size "") with 0.
    rewrite Z.min_l by lia. reflexivity.
Qed.

Lemma readData_drains_witness :
  let d := onReadyRead ("GET / HTTP/1.0" ++ Qt.CRLF ++ Qt.CRLF ++ "hello")
                       initial in
  requestHeadersRead d = true /\ Qt.size (buffer d) <= 4096 /\
  readData 4096 d = (5, "hello", set_buffer "" d) /\
  readData 4096 (set_buffer "" d) = (0, "", set_buffer "" d).
Proof.
  cbv zeta. split; [reflexivity|]. split; [vm_compute; discriminate|].
  apply (readData_drains 4096); [reflexivity | vm_compute; discriminate].
Defined.

(* ================================================================= *)
(** ** A well-formed request, end to end *)

Section WellFormed.

Lemma count_append (c : ascii) (a b : string) :
  count c (a ++ b) = (count c a + count c b)%nat.
Proof.
  induction a as [|x a IH]; [reflexivity|].
  cbn [append count]. destruct (Ascii.eqb x c); now rewrite IH.
Qed.

Lemma lacks_append (c : ascii) (a b : string) :
  lacks c a -> lacks c b -> lacks c (a ++ b).
Proof. unfold lacks. rewrite count_append. lia. Qed.

Lemma lacks_head (c x : ascii) (s : string) :
  lacks c (String x s) -> Ascii.eqb x c = false /\ lacks c s.
Proof.
  unfold lacks. cbn [count].
  destruct (Ascii.eqb x c); [discriminate | tauto].
Qed.

Lemma prefix_CR_other (p : string) (x : ascii) (s : string) :
  Ascii.eqb x Qt.CR = false ->
  String.prefix (String Qt.CR p) (String x s) = false.
Proof.
  intros E. cbn [String.prefix].
  destruct (ascii_dec Qt.CR x) as [A|A]; [|reflexivity].
  subst x. now rewrite Ascii.eqb_refl in E.
Qed.

Lemma indexOf_from_cons (p : string) (c : ascii) (t : string) (i : Z) :
  Qt.indexOf_from p (String c t) i
  = if String.prefix p (String c t) then i else Qt.indexOf_from p t (i + 1).
Proof. reflexivity. Qed.

(** The search passes over a line without carriage return. *)
Lemma indexOf_from_skip_line (l rest : string) (i : Z) :
  lacks Qt.CR l ->
  Qt.indexOf_from delimiter (l ++ rest) i
  = Qt.indexOf_from delimiter rest (i + Qt.size l).
Proof.
  revert i; induction l as [|x l IH]; intros i L.
  - cbn [append]. f_equal. unfold Qt.size. simpl. lia.
  - apply lacks_head in L. destruct L as (E & L).
    change (String x l ++ rest) with (String x (l ++ rest)).
    cbn [Qt.indexOf_from].
    unfold delimiter at 1, Qt.CRLF at 1. cbn [append].
    rewrite prefix_CR_other by exact E.
    rewrite IH by exact L. f_equal. unfold Qt.size. cbn [String.length]. lia.
Qed.

(** The search passes over a CR LF that a line follows. *)
Lemma indexOf_from_skip_break (h rest : string) (i : Z) :
  h <> "" -> lacks Qt.CR h ->
  Qt.indexOf_from delimiter (Qt.CRLF ++ h ++ rest) i
  = Qt.indexOf_from delimiter (h ++ rest) (i + 2).
Proof.
  intros N L. destruct h as [|x h]; [contradiction|].
  apply lacks_head in L. destruct L as (E & _).
  change (Qt.CRLF ++ String x h ++ rest)
    with (String Qt.CR (String Qt.LF (String x (h ++ rest)))).
  assert (A : String.prefix delimiter
                (String Qt.CR (String Qt.LF (String x (h ++ rest)))) = false).
  { unfold delimiter, Qt.CRLF. cbn [append String.prefix].
    destruct (ascii_dec Qt.CR Qt.CR); [|reflexivity].
    destruct (ascii_dec Qt.LF Qt.LF); [|reflexivity].
    destruct (ascii_dec Qt.CR x) as [B|B]; [|reflexivity].
    subst x. now rewrite Ascii.eqb_refl in E. }
  assert (B : String.prefix delimiter (String Qt.LF (String x (h ++ rest)))
              = false) by reflexivity.
  rewrite indexOf_from_cons, A, indexOf_from_cons, B.
  change (String x h ++ rest) with (String x (h ++ rest)).
  f_equal. lia.
Qed.

Lemma indexOf_from_delimiter_here (body : string) (i : Z) :
  Qt.indexOf_from delimiter (delimiter ++ body) i = i.
Proof.
  assert (P : String.prefix delimiter (delimiter ++ body) = true)
    by (apply prefix_append; reflexivity).
  destruct body; cbn [Qt.indexOf_from append delimiter Qt.CRLF] in *;
    now rewrite P.
Qed.

Lemma indexOf_from_headers (hs : list string) (body : string) (i : Z) :
  Forall (fun h => h <> "" /\ lacks Qt.CR h) hs ->
  Qt.indexOf_from delimiter
    (flat (map (fun h => Qt.CRLF ++ h) hs) ++ delimiter ++ body) i
  = i + Qt.size (flat (map (fun h => Qt.CRLF ++ h) hs)).
Proof.
  intros F. revert i; induction F as [|h hs (N & L) _ IH]; intros i.
  - cbn [map flat fold_right append]. rewrite indexOf_from_delimiter_here.
    unfold Qt.size. simpl. lia.
  - cbn [map flat fold_right].
    fold (flat (map (fun h => Qt.CRLF ++ h) hs)).
    rewrite !append_assoc.
    rewrite indexOf_from_skip_break by assumption.
    rewrite indexOf_from_skip_line by exact L.
    rewrite IH. rewrite !size_append. change (Qt.size Qt.CRLF) with 2. lia.
Qed.

(** Where the header block ends. *)
Lemma indexOf_block (line : string) (hs : list string) (body : string) :
  lacks Qt.CR line ->
  Forall (fun h => h <> "" /\ lacks Qt.CR h) hs ->
  Qt.indexOf delimiter (headerBlock line hs ++ delimiter ++ body)
  = Qt.size (headerBlock line hs).
Proof.
  intros L F. unfold Qt.indexOf, headerBlock.
  rewrite append_assoc, indexOf_from_skip_line by exact L.
  rewrite indexOf_from_headers by exact F.
  rewrite size_append. lia.
Qed.

Lemma prefix_CRLF (rest : string) :
  String.prefix Qt.CRLF (String Qt.CR (String Qt.LF rest)) = true.
Proof.
  unfold Qt.CRLF. cbn [String.prefix].
  destruct (ascii_dec Qt.CR Qt.CR); [|contradiction].
  destruct (ascii_dec Qt.LF Qt.LF); [|contradiction].
  now destruct rest.
Qed.

Lemma split_aux_CRLF_part (l rest : string) (acc : list ascii) :
  lacks Qt.CR l ->
  Qt.split_aux Qt.CRLF 0 acc (l ++ Qt.CRLF ++ rest)
  = Qt.rev_string acc l :: Qt.split_aux Qt.CRLF 0 [] rest.
Proof.
  revert acc; induction l as [|x l IH]; intros acc L.
  - change ("" ++ Qt.CRLF ++ rest) with (String Qt.CR (String Qt.LF rest)).
    cbn [Qt.split_aux]. rewrite prefix_CRLF. reflexivity.
  - apply lacks_head in L. destruct L as (E & L).
    change (String x l ++ Qt.CRLF ++ rest)
      with (String x (l ++ Qt.CRLF ++ rest)).
    cbn [Qt.split_aux]. unfold Qt.CRLF at 1.
    rewrite prefix_CR_other by exact E.
    rewrite IH by exact L. reflexivity.
Qed.

Lemma split_aux_CRLF_last (l : string) (acc : list ascii) :
  lacks Qt.CR l -> Qt.split_aux Qt.CRLF 0 acc l = [Qt.rev_string acc l].
Proof.
  revert acc; induction l as [|x l IH]; intros acc L; [reflexivity|].
  apply lacks_head in L. destruct L as (E & L).
  cbn [Qt.split_aux]. unfold Qt.CRLF at 1.
  rewrite prefix_CR_other by exact E.
  rewrite IH by exact L. reflexivity.
Qed.

(** Splitting a header block gives back its lines. *)
Lemma split_block (line : string) (hs : list string) :
  lacks Qt.CR line -> Forall (lacks Qt.CR) hs ->
  Qt.split Qt.CRLF (headerBlock line hs) = line :: hs.
Proof.
  unfold Qt.split, headerBlock. intros L F.
  revert line L; induction F as [|h hs H _ IH]; intros line L.
  - cbn [map flat fold_right]. rewrite append_nil_r.
    now apply split_aux_CRLF_last.
  - cbn [map flat fold_right].
    fold (flat (map (fun h => Qt.CRLF ++ h) hs)).
    rewrite (append_assoc Qt.CRLF).
    rewrite split_aux_CRLF_part by exact L.
    cbn [Qt.rev_string]. f_equal. now apply IH.
Qed.

Lemma set_requestHeaders_same (d : QHttpSocketPrivate) :
  set_requestHeaders (requestHeaders d) d = d.
Proof. now destruct d. Qed.

Lemma parse_raw_headers (hdrs : list (string * string))
      (d : QHttpSocketPrivate) :
  Forall (fun kv => lacks ":" (fst kv)) hdrs ->
  fold_left (fun d h => parseRequestHeader h d) (map rawHeader hdrs) d
  = set_requestHeaders (fold_left storeHeader hdrs (requestHeaders d)) d.
Proof.
  intros F. revert d; induction F as [|kv hdrs K _ IH]; intros d.
  - cbn [map fold_left]. now rewrite set_requestHeaders_same.
  - cbn [map fold_left].
    change (rawHeader kv) with (fst kv ++ ":" ++ snd kv).
    rewrite parseRequestHeader_colon by exact K.
    rewrite IH. reflexivity.
Qed.

Lemma supportedVersion_plain (v : string) :
  supportedVersion v = true ->
  lacks " " v /\ lacks Qt.CR v /\ sevenBit v = true.
Proof.
  unfold supportedVersion. intros H. apply orb_true_iff in H.
  destruct H as [H|H]; apply String.eqb_eq in H; subst v;
    repeat split; reflexivity.
Qed.

Lemma sevenBit_append (a b : string) :
  sevenBit a = true -> sevenBit b = true -> sevenBit (a ++ b) = true.
Proof.
  intros A B. induction a as [|c a IH]; [exact B|].
  cbn [append sevenBit] in *. apply andb_true_iff in A.
  destruct A as (A1 & A2). now rewrite A1, IH.
Qed.

(** Text below 0x80 without NUL converts to itself. *)
Lemma toQString_sevenBit (s : string) :
  sevenBit s = true -> Qt.toQString s = s.
Proof.
  unfold Qt.toQString. intros S.
  assert (U : Qt.upToNul s = s).
  { induction s as [|c s IH]; [reflexivity|].
    cbn [sevenBit Qt.upToNul] in *.
    apply andb_true_iff in S. destruct S as (S1 & S2).
    apply andb_true_iff in S1. destruct S1 as (P & _).
    apply Nat.ltb_lt in P.
    destruct (nat_of_ascii c =? 0)%nat eqn:E;
      [apply Nat.eqb_eq in E; lia | now rewrite IH]. }
  rewrite U. induction s as [|c s IH]; [reflexivity|].
  cbn [sevenBit] in S. apply andb_true_iff in S. destruct S as (S1 & S2).
  apply andb_true_iff in S1. destruct S1 as (_ & Q).
  assert (U2 : Qt.upToNul s = s).
  { cbn [Qt.upToNul] in U.
    destruct (nat_of_ascii c =? 0)%nat; [discriminate | congruence]. }
  cbn [Qt.fromUtf8]. cbv zeta. rewrite Q. now rewrite (IH S2 U2).
Qed.

Lemma sevenBit_block (line : string) (hs : list string) :
  sevenBit line = true -> Forall (fun h => sevenBit h = true) hs ->
  sevenBit (headerBlock line hs) = true.
Proof.
  intros L F. unfold headerBlock. apply sevenBit_append; [exact L|].
  induction F as [|h hs H _ IH]; [reflexivity|].
  cbn [map flat fold_right].
  repeat (apply sevenBit_append; try assumption); reflexivity.
Qed.

Lemma rawHeader_nonempty (kv : string * string) : rawHeader kv <> "".
Proof. unfold rawHeader. destruct (fst kv); discriminate. Qed.

End WellFormed.

(** X5.  A well-formed request of bytes below 0x80 is parsed to what
    was sent.  On a connection still waiting with an empty buffer, one
    arrival carrying request line, header lines, blank line and body
    bytes
    stores method and URI verbatim, files every header (name trimmed
    and lower-cased, value trimmed) in the order sent, leaves exactly
    the body bytes in the buffer, sets [requestHeadersRead], raises
    "request headers parsed" and nothing else, and sets no error. *)
Theorem wellformed_request_parsed (m u v : string)
        (hdrs : list (string * string)) (body : string)
        (d : QHttpSocketPrivate) :
  wellFormed m u v hdrs ->
  requestHeadersRead d = false -> buffer d = "" ->
  onReadyRead
    (headerBlock (requestLine m u v) (map rawHeader hdrs)
       ++ delimiter ++ body) d
  = emit SigRequestHeadersParsed
      (set_requestHeadersRead true
         (set_buffer body
            (set_requestHeaders
               (fold_left storeHeader hdrs (requestHeaders d))
               (set_requestUri u (set_requestMethod m d))))).
Proof.
  intros (M7 & U7 & Ms & Mc & Us & Uc & V & F) R B.
  destruct (supportedVersion_plain v V) as (Vs & Vc & V7).
  set (line := requestLine m u v).
  set (hs := map rawHeader hdrs).
  assert (Lc : lacks Qt.CR line).
  { unfold line, requestLine.
    repeat (apply lacks_append; try assumption); reflexivity. }
  assert (Hc : Forall (fun h => h <> "" /\ lacks Qt.CR h) hs).
  { unfold hs. apply Forall_map.
    refine (Forall_impl _ _ F). intros kv (_ & _ & _ & Kc & Wc). split.
    - apply rawHeader_nonempty.
    - unfold rawHeader.
      repeat (apply lacks_append; try assumption); reflexivity. }
  assert (I : Qt.indexOf delimiter
                (buffer d ++ headerBlock line hs ++ delimiter ++ body)
              = Qt.size (headerBlock line hs))
    by (rewrite B; apply indexOf_block; assumption).
  pose proof (size_nonneg (headerBlock line hs)) as P.
  rewrite onReadyRead_parse by (rewrite ?I; lia || assumption).
  cbv zeta. rewrite I. rewrite B. cbn [append].
  change (delimiter ++ body)
    with (String Qt.CR (String Qt.LF (Qt.CRLF ++ body))).
  rewrite left_first.
  change (String Qt.CR (String Qt.LF (Qt.CRLF ++ body)))
    with (delimiter ++ body).
  assert (Rm : Qt.remove 0 (Qt.size (headerBlock line hs) + 4)
                 (headerBlock line hs ++ delimiter ++ body) = body).
  { rewrite remove_front
      by (rewrite ?size_append; change (Qt.size delimiter) with 4;
          pose proof (size_nonneg body); lia).
    rewrite <- append_assoc.
    replace (Z.to_nat (Qt.size (headerBlock line hs) + 4))
      with (String.length (headerBlock line hs ++ delimiter))
      by (rewrite length_append; unfold Qt.size;
          change (String.length delimiter) with 4%nat; lia).
    apply drop_all. }
  rewrite Rm.
  assert (B7 : sevenBit (headerBlock line hs) = true).
  { apply sevenBit_block.
    - unfold line, requestLine.
      repeat (apply sevenBit_append; try assumption); reflexivity.
    - unfold hs. apply Forall_map.
      refine (Forall_impl _ _ F). intros kv (K7 & W7 & _).
      unfold rawHeader.
      repeat (apply sevenBit_append; try assumption); reflexivity. }
  rewrite (toQString_sevenBit _ B7).
  unfold parseRequestHeaders.
  rewrite split_block;
    [| exact Lc | refine (Forall_impl _ _ Hc); now intros h (_ & X)].
  assert (PL : parseRequestLine line d
               = set_requestUri u (set_requestMethod m d)).
  { unfold parseRequestLine, line, requestLine.
    rewrite split_three by assumption.
    cbn [List.length Nat.eqb negb nth].
    unfold supportedVersion in V.
    destruct (String.eqb v "HTTP/1.0"), (String.eqb v "HTTP/1.1");
      try reflexivity; discriminate. }
  rewrite PL. unfold hs.
  rewrite parse_raw_headers
    by (refine (Forall_impl _ _ F); now intros kv (_ & _ & X & _)).
  reflexivity.
Qed.

Lemma wellformed_request_parsed_witness :
  let hdrs := [("Host", " example.org"); ("X-Tag ", "a:b ")] in
  wellFormed "GET" "/foo" "HTTP/1.1" hdrs /\
  onReadyRead
    (headerBlock (requestLine "GET" "/foo" "HTTP/1.1") (map rawHeader hdrs)
       ++ delimiter ++ "hello") initial
  = mkPrivate NoError "" "hello" true "GET" "/foo"
      [("host", "example.org"); ("x-tag", "a:b")]
      "200 OK" QMap.empty false [SigRequestHeadersParsed].
Proof.
  cbv zeta.
  assert (W : wellFormed "GET" "/foo" "HTTP/1.1"
                [("Host", " example.org"); ("X-Tag ", "a:b ")])
    by (unfold wellFormed; repeat split; repeat constructor).
  split; [exact W|].
  exact (wellformed_request_parsed "GET" "/foo" "HTTP/1.1"
           [("Host", " example.org"); ("X-Tag ", "a:b ")] "hello" initial
           W eq_refl eq_refl).
Defined.

(* ================================================================= *)
(** ** The two sides of the adapter *)

Section Sides.

Lemma responseMembers_abortWithError (e : Error) (d : QHttpSocketPrivate) :
  responseMembers (abortWithError e d) = responseMembers d.
Proof. now destruct e. Qed.

Lemma responseMembers_parseRequestLine (l : string) (d : QHttpSocketPrivate) :
  responseMembers (parseRequestLine l d) = responseMembers d.
Proof.
  unfold parseRequestLine.
  destruct (negb _); [apply responseMembers_abortWithError|].
  destruct (_ && _); [apply responseMembers_abortWithError | reflexivity].
Qed.

Lemma responseMembers_parseRequestHeader (h : string)
      (d : QHttpSocketPrivate) :
  responseMembers (parseRequestHeader h d) = responseMembers d.
Proof.
  unfold parseRequestHeader.
  destruct (_ =? _); [apply responseMembers_abortWithError | reflexivity].
Qed.

Lemma responseMembers_parseRequestHeaders (hs : string)
      (d : QHttpSocketPrivate) :
  responseMembers (parseRequestHeaders hs d) = responseMembers d.
Proof.
  unfold parseRequestHeaders.
  destruct (Qt.split Qt.CRLF hs) as [|line parts]; [reflexivity|].
  rewrite <- (responseMembers_parseRequestLine line d).
  generalize (parseRequestLine line d).
  induction parts as [|h parts IH]; intros x; cbn [fold_left]; [reflexivity|].
  rewrite IH. apply responseMembers_parseRequestHeader.
Qed.

Lemma responseMembers_onReadyRead (chunk : string) (d : QHttpSocketPrivate) :
  responseMembers (onReadyRead chunk d) = responseMembers d.
Proof.
  destruct (requestHeadersRead d) eqn:R.
  - now rewrite onReadyRead_body.
  - destruct (Z.eq_dec (Qt.indexOf delimiter (buffer d ++ chunk)) (-1))
      as [I|I].
    + now rewrite onReadyRead_wait.
    + rewrite onReadyRead_parse by assumption. cbv zeta.
      rewrite <- (responseMembers_parseRequestHeaders
                    (Qt.toQString
                       (Qt.left (Qt.indexOf delimiter (buffer d ++ chunk))
                                (buffer d ++ chunk))) d).
      reflexivity.
Qed.

End Sides.

(** X6.  The request side and the response side do not touch each
    other.  A data arrival, a read or a request getter leaves
    [responseStatusCode], [responseHeaders] and
    [responseHeadersWritten] as they are; a close, a write or a
    response setter leaves error, error string, buffer,
    [requestHeadersRead], method, URI and request headers as they
    are. *)
Theorem sides_are_independent (c : call) (d : QHttpSocketPrivate) :
  if requestSide c
  then responseMembers (step c d) = responseMembers d
  else requestMembers (step c d) = requestMembers d.
Proof.
  destruct c; cbn [requestSide step];
    try apply responseMembers_onReadyRead;
    unfold close, getRequestMethod, getRequestUri, getRequestHeaders,
      requestHeader, setResponseStatusCode, setResponseHeader, readData,
      writeData, warnUnread, warnWritten, writeResponseHeaders;
    repeat match goal with |- context [if ?b then _ else _] => destruct b end;
    reflexivity.
Qed.

(* ================================================================= *)
(** ** What a call may raise *)

Section Events.

Lemma emitsOnly_quiet (allowed : event -> bool)
      (f : QHttpSocketPrivate -> QHttpSocketPrivate) :
  (forall d, trace (f d) = trace d) -> emitsOnly allowed f.
Proof.
  intros H d. exists []. now rewrite H, app_nil_r.
Qed.

Lemma emitsOnly_emit (allowed : event -> bool) (e : event) :
  allowed e = true -> emitsOnly allowed (emit e).
Proof.
  intros A d. exists [e]. cbn [trace emit forallb]. now rewrite A.
Qed.

Lemma emitsOnly_comp (allowed : event -> bool)
      (f g : QHttpSocketPrivate -> QHttpSocketPrivate) :
  emitsOnly allowed f -> emitsOnly allowed g ->
  emitsOnly allowed (fun d => g (f d)).
Proof.
  intros F G d. destruct (F d) as (t & T & A), (G (f d)) as (u & U & B).
  exists (t ++ u)%list. rewrite U, T, <- app_assoc, forallb_app, A, B.
  now split.
Qed.

Lemma emitsOnly_weaken (p q : event -> bool)
      (f : QHttpSocketPrivate -> QHttpSocketPrivate) :
  (forall e, p e = true -> q e = true) -> emitsOnly p f -> emitsOnly q f.
Proof.
  intros W F d. destruct (F d) as (t & T & A). exists t. split; [exact T|].
  rewrite forallb_forall in *. auto.
Qed.

Lemma emitsOnly_filter (p q : event -> bool)
      (f : QHttpSocketPrivate -> QHttpSocketPrivate) (d : QHttpSocketPrivate) :
  (forall e, p e = true -> q e = false) -> emitsOnly p f ->
  filter q (trace (f d)) = filter q (trace d).
Proof.
  intros W F. destruct (F d) as (t & T & A).
  rewrite T, filter_app.
  assert (N : filter q t = []).
  { clear T. induction t as [|e t IH]; [reflexivity|].
    cbn [forallb] in A. apply andb_true_iff in A. destruct A as (A1 & A2).
    cbn [filter]. rewrite (W e A1). now apply IH. }
  now rewrite N, app_nil_r.
Qed.

Lemma emitsOnly_abortWithError (e : Error) :
  emitsOnly isErrorChanged (abortWithError e).
Proof. intros d. exists [SigErrorChanged e]. now destruct e. Qed.

Lemma emitsOnly_parseRequestLine (l : string) :
  emitsOnly isErrorChanged (parseRequestLine l).
Proof.
  intros d. unfold parseRequestLine.
  destruct (negb _); [apply emitsOnly_abortWithError|].
  destruct (_ && _); [apply emitsOnly_abortWithError|].
  exists []. cbn. now rewrite app_nil_r.
Qed.

Lemma emitsOnly_parseRequestHeader (h : string) :
  emitsOnly isErrorChanged (parseRequestHeader h).
Proof.
  intros d. unfold parseRequestHeader.
  destruct (_ =? _); [apply emitsOnly_abortWithError|].
  exists []. cbn. now rewrite app_nil_r.
Qed.

Lemma emitsOnly_parseRequestHeaders (hs : string) :
  emitsOnly isErrorChanged (parseRequestHeaders hs).
Proof.
  unfold parseRequestHeaders.
  destruct (Qt.split Qt.CRLF hs) as [|line parts];
    [now apply emitsOnly_quiet|].
  apply (emitsOnly_comp _ (parseRequestLine line)
           (fold_left (fun d h => parseRequestHeader h d) parts)).
  - apply emitsOnly_parseRequestLine.
  - induction parts as [|h parts IH]; [now apply emitsOnly_quiet|].
    cbn [fold_left].
    apply (emitsOnly_comp _ (parseRequestHeader h) _
             (emitsOnly_parseRequestHeader h) IH).
Qed.

Lemma emitsOnly_onReadyRead (chunk : string) :
  emitsOnly (callEvents (OnReadyRead chunk)) (onReadyRead chunk).
Proof.
  intros d. destruct (requestHeadersRead d) eqn:R.
  - rewrite onReadyRead_body by exact R. now exists [SigReadyRead].
  - destruct (Z.eq_dec (Qt.indexOf delimiter (buffer d ++ chunk)) (-1))
      as [I|I].
    + rewrite onReadyRead_wait by assumption. exists [].
      cbn. now rewrite app_nil_r.
    + rewrite onReadyRead_parse by assumption. cbv zeta.
      destruct (emitsOnly_parseRequestHeaders
                  (Qt.toQString
                     (Qt.left (Qt.indexOf delimiter (buffer d ++ chunk))
                              (buffer d ++ chunk))) d) as (t & T & A).
      exists (t ++ [SigRequestHeadersParsed])%list.
      cbn [trace emit set_requestHeadersRead set_buffer].
      rewrite T, <- app_assoc, forallb_app. split; [reflexivity|].
      cbn [forallb callEvents]. rewrite andb_true_r.
      rewrite forallb_forall in *. intros e E. specialize (A e E).
      now destruct e.
Qed.

Lemma emitsOnly_warnUnread : emitsOnly isWarning warnUnread.
Proof.
  intros d. unfold warnUnread. destruct (negb _).
  - now exists [Warning "Request headers have not yet been read"].
  - exists []. now rewrite app_nil_r.
Qed.

Lemma emitsOnly_warnWritten : emitsOnly isWarning warnWritten.
Proof.
  intros d. unfold warnWritten. destruct (responseHeadersWritten d).
  - now exists [alreadyWritten].
  - exists []. now rewrite app_nil_r.
Qed.

End Events.

Lemma emitsOnly_step (c : call) : emitsOnly (callEvents c) (step c).
Proof.
  destruct c; cbn [step].
  - apply emitsOnly_onReadyRead.
  - intros d. cbn [step]. unfold close, writeResponseHeaders.
    destruct (negb (responseHeadersWritten d)).
    + exists [HeadersBuilt (builtHeaders d); SocketClose].
      cbn. now rewrite <- app_assoc.
    + now exists [SocketClose].
  - now apply emitsOnly_quiet.
  - apply (emitsOnly_weaken isWarning); [now intros [] | ].
    apply emitsOnly_warnUnread.
  - apply (emitsOnly_weaken isWarning); [now intros [] | ].
    apply emitsOnly_warnUnread.
  - apply (emitsOnly_weaken isWarning); [now intros [] | ].
    apply emitsOnly_warnUnread.
  - apply (emitsOnly_weaken isWarning); [now intros [] | ].
    apply emitsOnly_warnUnread.
  - apply (emitsOnly_weaken isWarning); [now intros [] | ].
    apply (emitsOnly_comp _ warnWritten (set_responseStatusCode statusCode));
      [apply emitsOnly_warnWritten | now apply emitsOnly_quiet].
  - apply (emitsOnly_weaken isWarning); [now intros [] | ].
    intros d. destruct (emitsOnly_warnWritten d) as (t & T & A).
    exists t. split; [exact T | exact A].
  - apply emitsOnly_quiet. intros d. cbn [step]. unfold readData.
    now destruct (negb _).
  - intros d. cbn [step]. unfold writeData, writeResponseHeaders. cbn [snd].
    destruct (negb (responseHeadersWritten d)).
    + exists [HeadersBuilt (builtHeaders d); SocketWrite data].
      cbn. rewrite String.eqb_refl, <- app_assoc. now split.
    + exists [SocketWrite data]. cbn. now rewrite String.eqb_refl.
Qed.

(** X7.  Each call raises its own events and no other.  A call that
    is not a data arrival appends exactly the events of [raisedBy]:
    [writeData] the header string if it is the first to send and then
    one socket write of its own payload; [close] the header string if
    it is the first to send and then the socket close; a request
    getter one warning while the headers are unread and nothing after;
    a response setter one warning once the headers are written and
    nothing before; [readData] and [error] nothing.  A data arrival
    appends one "ready read" when the headers are read, nothing while
    the delimiter is missing, and otherwise error notifications
    followed by one "request headers parsed"; it never warns and never
    calls the socket. *)
Theorem calls_raise_their_own_events (c : call) (d : QHttpSocketPrivate) :
  emitsOnly (callEvents c) (step c) /\
  (isArrival c = false ->
   trace (step c d) = (trace d ++ raisedBy c d)%list) /\
  (forall chunk, c = OnReadyRead chunk ->
     if requestHeadersRead d
     then trace (step c d) = (trace d ++ [SigReadyRead])%list
     else if Qt.indexOf delimiter (buffer d ++ chunk) =? -1
          then trace (step c d) = trace d
          else exists errs,
                 forallb isErrorChanged errs = true /\
                 trace (step c d)
                 = (trace d ++ errs ++ [SigRequestHeadersParsed])%list).
Proof.
  split; [exact (emitsOnly_step c)|]. split.
  - intros A. destruct c; try discriminate; cbn [step raisedBy];
      unfold close, getRequestMethod, getRequestUri, getRequestHeaders,
        requestHeader, setResponseStatusCode, setResponseHeader, readData,
        writeData, warnUnread, warnWritten, writeResponseHeaders,
        alreadyWritten;
      destruct (requestHeadersRead d), (responseHeadersWritten d);
      cbn; rewrite <- ?app_assoc, ?app_nil_r; reflexivity.
  - intros chunk ->. cbn [step].
    destruct (requestHeadersRead d) eqn:R.
    + now rewrite onReadyRead_body.
    + destruct (Qt.indexOf delimiter (buffer d ++ chunk) =? -1) eqn:I.
      * apply Z.eqb_eq in I. now rewrite onReadyRead_wait.
      * apply Z.eqb_neq in I. rewrite onReadyRead_parse by assumption.
        cbv zeta.
        destruct (emitsOnly_parseRequestHeaders
                    (Qt.toQString
                       (Qt.left (Qt.indexOf delimiter (buffer d ++ chunk))
                                (buffer d ++ chunk))) d) as (t & T & A).
        exists t. split; [exact A|].
        cbn [trace emit set_requestHeadersRead set_buffer].
        now rewrite T, <- app_assoc.
Qed.

Lemma calls_raise_their_own_events_witness :
  trace (step (WriteData "hi" 2) initial)
  = [HeadersBuilt ("HTTP/1.0 200 OK" ++ Qt.CRLF); SocketWrite "hi"] /\
  trace (step (WriteData "hi" 2) (close initial))
  = [HeadersBuilt ("HTTP/1.0 200 OK" ++ Qt.CRLF); SocketClose;
     SocketWrite "hi"] /\
  trace (step (OnReadyRead "GET") initial) = [].
Proof.
  split; [|split].
  - exact (proj1 (proj2 (calls_raise_their_own_events
                           (WriteData "hi" 2) initial)) eq_refl).
  - exact (proj1 (proj2 (calls_raise_their_own_events
                           (WriteData "hi" 2) (close initial))) eq_refl).
  - exact (proj2 (proj2 (calls_raise_their_own_events
                           (OnReadyRead "GET") initial)) "GET" eq_refl).
Defined.

(* ================================================================= *)
(** ** What holds over every run of calls *)

Section Runs.

Lemma run_cons (c : call) (cs : list call) (d : QHttpSocketPrivate) :
  run (c :: cs) d = run cs (step c d).
Proof. reflexivity. Qed.

(** A call other than a data arrival leaves what the parser filled
    in, and the header flag, alone. *)
Lemma step_other_request (c : call) (d : QHttpSocketPrivate) :
  isArrival c = false ->
  error (step c d) = error d /\
  errorString (step c d) = errorString d /\
  requestHeadersRead (step c d) = requestHeadersRead d /\
  requestMethod (step c d) = requestMethod d /\
  requestUri (step c d) = requestUri d /\
  requestHeaders (step c d) = requestHeaders d.
Proof.
  intros A. destruct c; try discriminate; cbn [step];
    unfold close, getRequestMethod, getRequestUri, getRequestHeaders,
      requestHeader, setResponseStatusCode, setResponseHeader, readData,
      writeData, warnUnread, warnWritten, writeResponseHeaders;
    repeat match goal with |- context [if ?b then _ else _] => destruct b end;
    cbn; tauto.
Qed.

Lemma requestHeadersRead_parseRequestHeaders (hs : string)
      (d : QHttpSocketPrivate) :
  requestHeadersRead (parseRequestHeaders hs d) = requestHeadersRead d.
Proof.
  pose proof (parseRequestHeaders_set_buffer (buffer d) hs d) as E.
  assert (A : forall e x, requestHeadersRead (abortWithError e x)
                          = requestHeadersRead x) by (now intros []).
  assert (L : forall l x, requestHeadersRead (parseRequestLine l x)
                          = requestHeadersRead x).
  { intros l x. unfold parseRequestLine.
    destruct (negb _); [apply A|]. destruct (_ && _); [apply A | reflexivity]. }
  assert (H : forall h x, requestHeadersRead (parseRequestHeader h x)
                          = requestHeadersRead x).
  { intros h x. unfold parseRequestHeader.
    destruct (_ =? _); [apply A | reflexivity]. }
  clear E. unfold parseRequestHeaders.
  destruct (Qt.split Qt.CRLF hs) as [|line parts]; [reflexivity|].
  rewrite <- (L line d). generalize (parseRequestLine line d).
  induction parts as [|h parts IH]; intros x; cbn [fold_left]; [reflexivity|].
  now rewrite IH, H.
Qed.

Lemma step_parsed_once (c : call) (d : QHttpSocketPrivate) :
  List.length (filter isParsed (trace d))
  = (if requestHeadersRead d then 1%nat else 0%nat) ->
  List.length (filter isParsed (trace (step c d)))
  = (if requestHeadersRead (step c d) then 1%nat else 0%nat).
Proof.
  intros P. destruct (isArrival c) eqn:A.
  - destruct c; try discriminate. cbn [step].
    destruct (requestHeadersRead d) eqn:R.
    + rewrite onReadyRead_body by exact R.
      cbn [trace emit set_buffer requestHeadersRead].
      rewrite filter_app, length_app, P, R. reflexivity.
    + destruct (Z.eq_dec (Qt.indexOf delimiter (buffer d ++ chunk)) (-1))
        as [I|I].
      * rewrite onReadyRead_wait by assumption.
        cbn [trace set_buffer requestHeadersRead]. now rewrite P, R.
      * rewrite onReadyRead_parse by assumption. cbv zeta.
        cbn [trace emit set_buffer set_requestHeadersRead requestHeadersRead].
        rewrite filter_app, length_app.
        rewrite (emitsOnly_filter isErrorChanged isParsed
                   (parseRequestHeaders _) d);
          [| now intros [] | apply emitsOnly_parseRequestHeaders].
        now rewrite P.
  - destruct (step_other_request c d A) as (_ & _ & R & _).
    rewrite R, <- P.
    f_equal. apply (emitsOnly_filter (callEvents c));
      [| apply emitsOnly_step].
    intros e E. destruct c, e; try discriminate; reflexivity.
Qed.

Lemma step_requestHeadersRead (c : call) (d : QHttpSocketPrivate) :
  requestHeadersRead d = true -> requestHeadersRead (step c d) = true.
Proof.
  intros R. destruct (isArrival c) eqn:A.
  - destruct c; try discriminate. cbn [step].
    now rewrite onReadyRead_body.
  - destruct (step_other_request c d A) as (_ & _ & E & _). now rewrite E.
Qed.

(** What a call does to the response flag and to the strings built. *)
Lemma step_response (c : call) (d : QHttpSocketPrivate) :
  responseHeadersWritten (step c d)
  = responseHeadersWritten d || sendsResponse c /\
  headersBuilt (trace (step c d))
  = (headersBuilt (trace d)
       ++ (if sendsResponse c && negb (responseHeadersWritten d)
           then [builtHeaders d] else []))%list.
Proof.
  assert (S : forall f, silent f ->
                responseHeadersWritten (f d) = responseHeadersWritten d || false /\
                headersBuilt (trace (f d)) = (headersBuilt (trace d) ++ [])%list).
  { intros f F. destruct (F d) as (_ & H & W).
    now rewrite H, W, orb_false_r, app_nil_r. }
  destruct (ensureHeaders_wire d) as (_ & H & W). cbv zeta in H, W.
  destruct c; cbn [step sendsResponse andb];
    try (unfold getRequestMethod, getRequestUri, getRequestHeaders,
           requestHeader; cbn [snd]; apply (S _ silent_warnUnread)).
  - apply (S _ (silent_onReadyRead chunk)).
  - unfold close.
    cbn [trace responseHeadersWritten emit]. rewrite headersBuilt_app, W, H.
    cbn [headersBuilt]. rewrite app_nil_r, orb_true_r.
    now destruct (responseHeadersWritten d).
  - apply (S (fun x => x)). apply silent_id.
  - apply (S _ (silent_setResponseStatusCode statusCode)).
  - apply (S _ (silent_setResponseHeader header value)).
  - apply (S _ (silent_readData maxlen)).
  - unfold writeData. cbn [snd].
    cbn [trace responseHeadersWritten emit]. rewrite headersBuilt_app, W, H.
    cbn [headersBuilt]. rewrite app_nil_r, orb_true_r.
    now destruct (responseHeadersWritten d).
Qed.

Lemma run_written (cs : list call) (d : QHttpSocketPrivate) :
  responseHeadersWritten d = true ->
  responseHeadersWritten (run cs d) = true /\
  headersBuilt (trace (run cs d)) = headersBuilt (trace d).
Proof.
  revert d; induction cs as [|c cs IH]; intros d W; [now split|].
  rewrite run_cons. destruct (step_response c d) as (F & H).
  rewrite W in F, H. cbn [orb negb] in F, H.
  rewrite andb_false_r, app_nil_r in H.
  destruct (IH (step c d) F) as (F' & H'). split; [exact F' | congruence].
Qed.

End Runs.

(** X8.  "Request headers parsed" is raised at most once on a
    connection, whatever is called and however often: over every run
    of calls on a fresh connection it has been raised once if
    [requestHeadersRead] is set and not at all otherwise. *)
Theorem headers_parsed_at_most_once (cs : list call) :
  let d := run cs initial in
  List.length (filter isParsed (trace d))
  = if requestHeadersRead d then 1%nat else 0%nat.
Proof.
  cbv zeta.
  assert (G : forall d,
             List.length (filter isParsed (trace d))
             = (if requestHeadersRead d then 1%nat else 0%nat) ->
             List.length (filter isParsed (trace (run cs d)))
             = (if requestHeadersRead (run cs d) then 1%nat else 0%nat)).
  { induction cs as [|c cs IH]; intros d P; [exact P|].
    rewrite run_cons. apply IH. now apply step_parsed_once. }
  apply G. reflexivity.
Qed.

(** X9.  Neither flag is ever reset: once [requestHeadersRead] is
    true it is true after every further run of calls, and so is
    [responseHeadersWritten]. *)
Theorem flags_never_reset (cs : list call) (d : QHttpSocketPrivate) :
  (requestHeadersRead d = true -> requestHeadersRead (run cs d) = true) /\
  (responseHeadersWritten d = true ->
   responseHeadersWritten (run cs d) = true).
Proof.
  split.
  - revert d; induction cs as [|c cs IH]; intros d R; [exact R|].
    rewrite run_cons. apply IH. now apply step_requestHeadersRead.
  - intros W. now apply run_written.
Qed.

Lemma flags_never_reset_witness :
  let d := close (onReadyRead ("GET / HTTP/1.0" ++ Qt.CRLF ++ Qt.CRLF)
                              initial) in
  let cs := [OnReadyRead "x"; SetResponseStatusCode "404 Not Found";
             ReadData 1; WriteData "late" 4; Close] in
  requestHeadersRead (run cs d) = true /\
  responseHeadersWritten (run cs d) = true.
Proof.
  cbv zeta.
  split; [apply (proj1 (flags_never_reset _ _)) |
          apply (proj2 (flags_never_reset _ _))]; reflexivity.
Defined.

(** X10.  The header string is the one of the moment of the first
    write or close.  If [responseHeadersWritten] is still false, a
    [writeData] or a [close] builds the string from the status code
    and headers set so far, and no later call, setters included,
    builds another; if it is already true, no call builds any. *)
Theorem header_string_fixed_at_first_send (c : call) (cs : list call)
        (d : QHttpSocketPrivate) :
  sendsResponse c = true ->
  headersBuilt (trace (run (c :: cs) d))
  = (headersBuilt (trace d)
       ++ (if responseHeadersWritten d then [] else [builtHeaders d]))%list.
Proof.
  intros S. rewrite run_cons.
  destruct (step_response c d) as (F & H). rewrite S in F, H.
  rewrite orb_true_r in F. cbn [andb] in H.
  destruct (run_written cs (step c d) F) as (_ & E). rewrite E, H.
  now destruct (responseHeadersWritten d).
Qed.

Lemma header_string_fixed_at_first_send_witness :
  headersBuilt
    (trace (run [WriteData "hi" 2; SetResponseStatusCode "404 Not Found";
                 SetResponseHeader "A" "1"; WriteData "more" 4; Close]
                (setResponseHeader "Server" "q" initial)))
  = ["HTTP/1.0 200 OK" ++ Qt.CRLF ++ "Server: q"].
Proof.
  exact (header_string_fixed_at_first_send (WriteData "hi" 2)
           [SetResponseStatusCode "404 Not Found";
            SetResponseHeader "A" "1"; WriteData "more" 4; Close]
           (setResponseHeader "Server" "q" initial) eq_refl).
Defined.

(* ================================================================= *)
(** ** The error and its message *)

Section ErrorMessage.

Lemma message_abortWithError (e : Error) (d : QHttpSocketPrivate) :
  e <> NoError ->
  error (abortWithError e d) = e /\
  errorString (abortWithError e d) = errorMessage e.
Proof. destruct e; [contradiction | | | |]; now split. Qed.

Lemma message_parseRequestLine (l : string) (d : QHttpSocketPrivate) :
  errorString d = errorMessage (error d) ->
  errorString (parseRequestLine l d)
  = errorMessage (error (parseRequestLine l d)).
Proof.
  intros C. unfold parseRequestLine.
  destruct (negb _); [reflexivity|].
  destruct (_ && _); [reflexivity | exact C].
Qed.

Lemma message_parseRequestHeader (h : string) (d : QHttpSocketPrivate) :
  errorString d = errorMessage (error d) ->
  errorString (parseRequestHeader h d)
  = errorMessage (error (parseRequestHeader h d)).
Proof.
  intros C. unfold parseRequestHeader.
  destruct (_ =? _); [reflexivity | exact C].
Qed.

Lemma message_parseRequestHeaders (hs : string) (d : QHttpSocketPrivate) :
  errorString d = errorMessage (error d) ->
  errorString (parseRequestHeaders hs d)
  = errorMessage (error (parseRequestHeaders hs d)).
Proof.
  intros C. unfold parseRequestHeaders.
  destruct (Qt.split Qt.CRLF hs) as [|line parts]; [exact C|].
  apply (message_parseRequestLine line) in C.
  revert C. generalize (parseRequestLine line d).
  induction parts as [|h parts IH]; intros x C; cbn [fold_left]; [exact C|].
  apply IH. now apply message_parseRequestHeader.
Qed.

Lemma message_step (c : call) (d : QHttpSocketPrivate) :
  errorString d = errorMessage (error d) ->
  errorString (step c d) = errorMessage (error (step c d)).
Proof.
  intros C. destruct (isArrival c) eqn:A.
  - destruct c; try discriminate. cbn [step].
    destruct (requestHeadersRead d) eqn:R.
    + now rewrite onReadyRead_body.
    + destruct (Z.eq_dec (Qt.indexOf delimiter (buffer d ++ chunk)) (-1))
        as [I|I].
      * now rewrite onReadyRead_wait.
      * rewrite onReadyRead_parse by assumption. cbv zeta.
        cbn [error errorString emit set_requestHeadersRead set_buffer].
        now apply message_parseRequestHeaders.
  - destruct (step_other_request c d A) as (E & S & _). now rewrite E, S.
Qed.

End ErrorMessage.

(** X11.  The error string always goes with the error kind: over
    every run of calls on a fresh connection [errorString] is the
    message of [abortWithError] for the current [error], and the empty
    string while there is none. *)
Theorem errorString_matches_error (cs : list call) :
  let d := run cs initial in errorString d = errorMessage (error d).
Proof.
  cbv zeta.
  assert (G : forall d, errorString d = errorMessage (error d) ->
                        errorString (run cs d) = errorMessage (error (run cs d))).
  { induction cs as [|c cs IH]; intros d C; [exact C|].
    rewrite run_cons. apply IH. now apply message_step. }
  apply G. reflexivity.
Qed.

(* ================================================================= *)
(** ** The error a header block leaves *)

Section BlockError.

Lemma indexOf_from_present (x : ascii) (s : string) (i : Z) :
  0 <= i -> ~ lacks x s -> Qt.indexOf_from (String x "") s i <> -1.
Proof.
  unfold lacks. revert i; induction s as [|c s IH]; intros i P N.
  - now contradiction N.
  - rewrite indexOf_from_cons, prefix_char.
    cbn [count] in N. destruct (Ascii.eqb c x); [lia|].
    apply IH; [lia | exact N].
Qed.

Lemma error_parseRequestHeader_colon (h : string) (d : QHttpSocketPrivate) :
  ~ lacks ":" h -> error (parseRequestHeader h d) = error d.
Proof.
  intros N. unfold parseRequestHeader.
  pose proof (indexOf_from_present ":" h 0 ltac:(lia) N) as I.
  fold (Qt.indexOf ":" h) in I.
  destruct (Qt.indexOf ":" h =? -1) eqn:E; [lia | reflexivity].
Qed.

Lemma error_parseRequestHeader_lacks (h : string) (d : QHttpSocketPrivate) :
  lacks ":" h -> error (parseRequestHeader h d) = MalformedRequestHeader.
Proof.
  intros L. unfold parseRequestHeader, Qt.indexOf.
  now rewrite indexOf_from_lacks.
Qed.

Lemma lacks_dec (x : ascii) (s : string) : {lacks x s} + {~ lacks x s}.
Proof. unfold lacks. decide equality. Qed.

Lemma error_headers_all_colon (hs : list string) (d : QHttpSocketPrivate) :
  Forall (fun h => ~ lacks ":" h) hs ->
  error (fold_left (fun d h => parseRequestHeader h d) hs d) = error d.
Proof.
  intros F. revert d; induction F as [|h hs N _ IH]; intros d; [reflexivity|].
  cbn [fold_left]. rewrite IH. now apply error_parseRequestHeader_colon.
Qed.

Lemma error_headers_some_lacks (hs : list string) (d : QHttpSocketPrivate) :
  Exists (lacks ":") hs ->
  error (fold_left (fun d h => parseRequestHeader h d) hs d)
  = MalformedRequestHeader.
Proof.
  revert d; induction hs as [|h hs IH]; intros d X.
  - inversion X.
  - cbn [fold_left].
    destruct (Exists_dec (lacks ":") hs (lacks_dec ":")) as [Y|Y].
    + now apply IH.
    + rewrite error_headers_all_colon.
      * apply error_parseRequestHeader_lacks.
        inversion X; [assumption | contradiction].
      * apply Forall_Exists_neg. exact Y.
Qed.

End BlockError.

(** X12.  The last failing line decides the error.  For a header
    block of lines free of carriage returns: if some header line has
    no colon the error after [parseRequestHeaders] is
    [MalformedRequestHeader], whatever the request line was; if every
    header line has a colon the error is the one the request line
    left, which is the error from before when the request line is
    sound. *)
Theorem error_after_header_block (line : string) (hs : list string)
        (d : QHttpSocketPrivate) :
  lacks Qt.CR line -> Forall (lacks Qt.CR) hs ->
  (Exists (lacks ":") hs ->
   error (parseRequestHeaders (headerBlock line hs) d)
   = MalformedRequestHeader) /\
  (Forall (fun h => ~ lacks ":" h) hs ->
   error (parseRequestHeaders (headerBlock line hs) d)
   = error (parseRequestLine line d)).
Proof.
  intros L F. unfold parseRequestHeaders.
  rewrite split_block by assumption. split; intros H.
  - now apply error_headers_some_lacks.
  - now apply error_headers_all_colon.
Qed.

Lemma error_after_header_block_witness :
  error (parseRequestHeaders
           (headerBlock "GET /foo FOO/9.9" ["no colon"; "Host: a"]) initial)
  = MalformedRequestHeader /\
  error (parseRequestHeaders
           (headerBlock "GET /foo FOO/9.9" ["Accept: x"; "Host: a"]) initial)
  = InvalidHttpVersion.
Proof.
  split.
  - apply (proj1 (error_after_header_block "GET /foo FOO/9.9"
                    ["no colon"; "Host: a"] initial eq_refl
                    ltac:(repeat constructor))).
    left. reflexivity.
  - refine (proj2 (error_after_header_block "GET /foo FOO/9.9"
                     ["Accept: x"; "Host: a"] initial eq_refl
                     ltac:(repeat constructor)) _).
    repeat constructor; discriminate.
Defined.

(* ================================================================= *)
(** ** The names [requestHeaders()] lists *)

Section Names.

Lemma lowerChar_idempotent (c : ascii) :
  Qt.lowerChar (Qt.lowerChar c) = Qt.lowerChar c.
Proof. destruct c as [[] [] [] [] [] [] [] []]; reflexivity. Qed.

Lemma toLower_idempotent (s : string) : Qt.toLower (Qt.toLower s) = Qt.toLower s.
Proof.
  induction s as [|c s IH]; [reflexivity|].
  cbn [Qt.toLower]. now rewrite lowerChar_idempotent, IH.
Qed.

Lemma keyLt_trans (a b c : string) : keyLt a b -> keyLt b c -> keyLt a c.
Proof.
  unfold keyLt. intros A B.
  apply OrderedTypeEx.String_as_OT.cmp_lt in A, B.
  apply OrderedTypeEx.String_as_OT.cmp_lt.
  exact (OrderedTypeEx.String_as_OT.lt_trans _ _ _ A B).
Qed.

Lemma ascending_keys (m : QMap.t) :
  ascending m -> StronglySorted keyLt (QMap.keys m).
Proof.
  intros A. apply Sorted_StronglySorted.
  - intros a b c. apply keyLt_trans.
  - unfold ascending in A. induction A as [|kv m _ IH H]; [constructor|].
    cbn [QMap.keys map]. constructor; [exact IH|].
    destruct H; constructor. assumption.
Qed.

Lemma keys_insert (Q : string -> Prop) (k v : string) (m : QMap.t) :
  Q k -> Forall Q (QMap.keys m) -> Forall Q (QMap.keys (QMap.insert k v m)).
Proof.
  intros K. induction m as [|[k0 v0] m IH]; intros F.
  - now constructor.
  - cbn [QMap.insert]. inversion F as [|? ? F0 F1]; subst.
    destruct (String.compare k k0); cbn [QMap.keys map fst] in *.
    + now constructor.
    + constructor; [exact K | exact F].
    + constructor; [exact F0 | now apply IH].
Qed.

Lemma find_listed (k : string) (m : QMap.t) :
  In k (QMap.keys m) -> exists v, QMap.find k m = Some v /\ In (k, v) m.
Proof.
  induction m as [|[k0 v0] m IH]; intros I; [contradiction|].
  cbn [QMap.find]. destruct (String.eqb k k0) eqn:E.
  - apply String.eqb_eq in E. subst k0. exists v0. split; [reflexivity|].
    now left.
  - destruct I as [I|I].
    + cbn in I. subst k0. now rewrite String.eqb_refl in E.
    + destruct (IH I) as (v & F & M). exists v. split; [exact F | now right].
Qed.

Lemma tidy_insert (k v : string) (m : QMap.t) :
  tidy m -> tidy (QMap.insert (Qt.toLower k) v m).
Proof.
  intros (A & L). split.
  - now apply insert_ascending.
  - apply keys_insert; [apply toLower_idempotent | exact L].
Qed.

Lemma requestHeaders_parseRequestLine (l : string) (d : QHttpSocketPrivate) :
  requestHeaders (parseRequestLine l d) = requestHeaders d.
Proof.
  unfold parseRequestLine.
  destruct (negb _); [apply requestHeaders_abortWithError|].
  destruct (_ && _); [apply requestHeaders_abortWithError | reflexivity].
Qed.

Lemma tidy_parseRequestHeaders (hs : string) (d : QHttpSocketPrivate) :
  tidy (requestHeaders d) -> tidy (requestHeaders (parseRequestHeaders hs d)).
Proof.
  unfold parseRequestHeaders.
  destruct (Qt.split Qt.CRLF hs) as [|line parts]; [auto|].
  rewrite <- (requestHeaders_parseRequestLine line d).
  generalize (parseRequestLine line d).
  induction parts as [|h parts IH]; intros x T; cbn [fold_left]; [exact T|].
  apply IH. rewrite requestHeaders_parseRequestHeader.
  unfold headerName. destruct (_ =? _); [exact T|].
  now apply tidy_insert.
Qed.

Lemma tidy_step (c : call) (d : QHttpSocketPrivate) :
  tidy (requestHeaders d) -> tidy (requestHeaders (step c d)).
Proof.
  intros T. destruct (isArrival c) eqn:A.
  - destruct c; try discriminate. cbn [step].
    destruct (requestHeadersRead d) eqn:R.
    + now rewrite onReadyRead_body.
    + destruct (Z.eq_dec (Qt.indexOf delimiter (buffer d ++ chunk)) (-1))
        as [I|I].
      * now rewrite onReadyRead_wait.
      * rewrite onReadyRead_parse by assumption. cbv zeta.
        cbn [requestHeaders emit set_requestHeadersRead set_buffer].
        now apply tidy_parseRequestHeaders.
  - destruct (step_other_request c d A) as (_ & _ & _ & _ & _ & E).
    now rewrite E.
Qed.

Lemma tidy_run (cs : list call) (d : QHttpSocketPrivate) :
  tidy (requestHeaders d) -> tidy (requestHeaders (run cs d)).
Proof.
  revert d; induction cs as [|c cs IH]; intros d T; [exact T|].
  rewrite run_cons. apply IH. now apply tidy_step.
Qed.

Lemma requestHeaders_warnUnread (d : QHttpSocketPrivate) :
  requestHeaders (warnUnread d) = requestHeaders d.
Proof. unfold warnUnread. now destruct (negb _). Qed.

End Names.

(** X13.  What [requestHeaders()] lists.  After every run of calls on
    a fresh connection the names returned are in strictly ascending
    order, so none is listed twice, and each is in lower case; and
    [requestHeader] asked for a listed name returns the value stored
    under it. *)
Theorem request_header_names_listing (cs : list call) :
  let d := run cs initial in
  let names := fst (getRequestHeaders d) in
  StronglySorted keyLt names /\
  Forall (fun k => Qt.toLower k = k) names /\
  (forall k, In k names ->
     exists v, In (k, v) (requestHeaders d) /\ fst (requestHeader k d) = v).
Proof.
  cbv zeta. unfold getRequestHeaders, requestHeader. cbn [fst].
  rewrite requestHeaders_warnUnread.
  destruct (tidy_run cs initial) as (A & L); [split; constructor|].
  split; [now apply ascending_keys|]. split; [exact L|].
  intros k I. destruct (find_listed k _ I) as (v & F & M).
  exists v. split; [exact M|].
  rewrite Forall_forall in L. rewrite (L k I).
  unfold QMap.value. now rewrite F.
Qed.

(* ================================================================= *)
(** ** The body stream *)

Section BodyStream.

Lemma buffer_step_other (c : call) (d : QHttpSocketPrivate) :
  isArrival c = false -> (forall n, c <> ReadData n) ->
  buffer (step c d) = buffer d /\ bodyRead [c] d = "".
Proof.
  intros A N. destruct c; try discriminate; cbn [step bodyRead];
    try (exfalso; eapply N; reflexivity);
    unfold close, getRequestMethod, getRequestUri, getRequestHeaders,
      requestHeader, setResponseStatusCode, setResponseHeader,
      writeData, warnUnread, warnWritten, writeResponseHeaders;
    repeat match goal with |- context [if ?b then _ else _] => destruct b end;
    cbn; tauto.
Qed.

End BodyStream.

(** X14.  No body byte is lost, doubled or moved.  Once the headers
    are read, over every run of calls (reads asking for non-negative
    lengths) the bytes handed out by the [readData] calls, end to end,
    followed by what is still in the buffer are exactly what was in
    the buffer at the start followed by the bytes that arrived, in
    order. *)
Theorem body_bytes_conserved (cs : list call) (d : QHttpSocketPrivate) :
  requestHeadersRead d = true -> Forall readsNonNegative cs ->
  bodyRead cs d ++ buffer (run cs d) = buffer d ++ arrived cs.
Proof.
  intros R F. revert d R; induction F as [|c cs N _ IH]; intros d R.
  - cbn [bodyRead run fold_left arrived]. now rewrite append_nil_r.
  - rewrite run_cons. cbn [bodyRead]. rewrite append_assoc.
    rewrite (IH (step c d) (step_requestHeadersRead c d R)).
    destruct c;
      try (match goal with
           | |- context [buffer (step ?c d)] =>
               destruct (buffer_step_other c d eq_refl
                           ltac:(intros; discriminate)) as (B & _);
               rewrite B; reflexivity
           end).
    + cbn [step arrived]. rewrite onReadyRead_body by exact R.
      cbn [buffer emit set_buffer]. now rewrite append_assoc.
    + cbn [step arrived]. cbn in N.
      rewrite (readData_ready maxlen d R N). cbv zeta.
      cbn [fst snd buffer set_buffer].
      now rewrite <- append_assoc, take_drop.
Qed.

Lemma body_bytes_conserved_witness :
  let d := onReadyRead ("GET / HTTP/1.0" ++ Qt.CRLF ++ Qt.CRLF ++ "ab")
                       initial in
  let cs := [ReadData 1; OnReadyRead "cde"; WriteData "x" 1; ReadData 3;
             OnReadyRead "f"; ReadData 0] in
  bodyRead cs d = "abcd" /\ buffer (run cs d) = "ef" /\
  bodyRead cs d ++ buffer (run cs d) = buffer d ++ arrived cs.
Proof.
  cbv zeta. split; [reflexivity|]. split; [reflexivity|].
  apply body_bytes_conserved; [reflexivity|].
  repeat constructor; cbn; lia.
Defined.

(* ================================================================= *)
(** ** Before the response headers *)

Lemma step_no_socket_call (c : call) (d : QHttpSocketPrivate) :
  responseHeadersWritten (step c d) = false ->
  responseHeadersWritten d = false /\
  filter isSocketCall (trace (step c d)) = filter isSocketCall (trace d).
Proof.
  intros W. destruct (step_response c d) as (F & _).
  rewrite W in F. symmetry in F. apply orb_false_iff in F.
  destruct F as (F & S). split; [exact F|].
  apply (emitsOnly_filter (callEvents c)); [|apply emitsOnly_step].
  intros e E. destruct c, e; try discriminate; reflexivity.
Qed.

(** X15.  Nothing goes to the socket ahead of the response headers
    step: over every run of calls on a fresh connection, as long as
    [responseHeadersWritten] is false the socket has been handed no
    payload and has not been closed. *)
Theorem no_socket_call_before_headers (cs : list call) :
  let d := run cs initial in
  responseHeadersWritten d = false -> filter isSocketCall (trace d) = [].
Proof.
  cbv zeta.
  assert (G : forall cs' d,
             responseHeadersWritten (run cs' d) = false ->
             responseHeadersWritten d = false /\
             filter isSocketCall (trace (run cs' d))
             = filter isSocketCall (trace d)).
  { induction cs' as [|c cs' IH]; intros d W; [now split|].
    rewrite run_cons in *. destruct (IH _ W) as (W1 & E).
    destruct (step_no_socket_call c d W1) as (W0 & E0).
    split; [exact W0 | congruence]. }
  intros W. now destruct (G cs initial W) as (_ & E).
Qed.

Lemma no_socket_call_before_headers_witness :
  filter isSocketCall
    (trace (run [SetResponseHeader "A" "1"; OnReadyRead "GET"; ReadData 4;
                 GetRequestMethod] initial)) = [].
Proof.
  apply (no_socket_call_before_headers
           [SetResponseHeader "A" "1"; OnReadyRead "GET"; ReadData 4;
            GetRequestMethod]).
  reflexivity.
Defined.

(* ================================================================= *)
(** ** Before the request headers, and names never sent *)

(** X16.  While the header block is incomplete the request getters
    answer with the defaults and a warning each: the method and the
    URI are empty, no header name is listed, and every header lookup
    gives the empty string. *)
Theorem request_fields_default_while_waiting (chunks : list string)
        (name : string) :
  Qt.indexOf delimiter (flat chunks) = -1 ->
  let d := deliver chunks initial in
  let unread := [Warning "Request headers have not yet been read"] in
  (fst (getRequestMethod d) = "" /\ trace (snd (getRequestMethod d)) = unread) /\
  (fst (getRequestUri d) = "" /\ trace (snd (getRequestUri d)) = unread) /\
  (fst (getRequestHeaders d) = [] /\
   trace (snd (getRequestHeaders d)) = unread) /\
  (fst (requestHeader name d) = "" /\
   trace (snd (requestHeader name d)) = unread).
Proof.
  intros I. cbv zeta.
  rewrite (deliver_waiting chunks initial eq_refl I).
  repeat split.
Qed.

Lemma request_fields_default_while_waiting_witness :
  let d := deliver ["GET / HTTP/1.1" ++ Qt.CRLF; "Host: a"] initial in
  fst (getRequestMethod d) = "" /\ fst (requestHeader "Host" d) = "".
Proof.
  cbv zeta.
  destruct (request_fields_default_while_waiting
              ["GET / HTTP/1.1" ++ Qt.CRLF; "Host: a"] "Host" eq_refl)
    as ((A & _) & _ & _ & (B & _)).
  split; [exact A | exact B].
Defined.

(** X17.  A name no line was filed under gives the empty string.
    After a header block of lines free of carriage returns is parsed
    on a fresh connection, [requestHeader] asked for a name that no
    header line of the block carries returns the empty string. *)
Theorem absent_header_is_empty (line : string) (hs : list string)
        (name : string) :
  lacks Qt.CR line -> Forall (lacks Qt.CR) hs ->
  Forall (fun h => headerName h <> Some (Qt.toLower name)) hs ->
  fst (requestHeader name (parseRequestHeaders (headerBlock line hs) initial))
  = "".
Proof.
  intros L F N.
  unfold requestHeader. cbn [fst]. rewrite requestHeaders_warnUnread.
  unfold parseRequestHeaders. rewrite split_block by assumption.
  unfold QMap.value. rewrite find_after_other_lines by exact N.
  now rewrite requestHeaders_parseRequestLine.
Qed.

Lemma absent_header_is_empty_witness :
  fst (requestHeader "Cookie"
         (parseRequestHeaders
            (headerBlock "GET / HTTP/1.1" ["Host: a"; "bad line"]) initial))
  = "".
Proof.
  apply absent_header_is_empty.
  - reflexivity.
  - repeat constructor.
  - repeat constructor; vm_compute; discriminate.
Defined.
